(** * BasicTAD: the class registry, the config-driven builder and AutoAugment

    A shallow embedding of [vedacore/misc/registry.py] and
    [vedatad/datasets/pipelines/auto_augment.py].

    Python objects that are shared and mutated (the [Registry] instance, its
    [_module_dict], the policy lists handed to [AutoAugment]) live in an
    explicit store addressed by locations; methods are state-passing
    functions that return the store together with either a value or the
    exception that was raised. *)

From Stdlib Require Import QArith.
From stdpp Require Import gmap strings list fin_maps.

#[local] Set Warnings "-register-all".
#[local] Open Scope string_scope.
#[local] Open Scope list_scope.
#[local] Open Scope nat_scope.
#[local] Open Scope stdpp_scope.

(** ** Python prelude: classes, exceptions, results *)

(** A class object: its [__name__] and its identity.  Two distinct classes
    may carry the same name. *)
Record pyclass := PyClass { cls_name : string; cls_id : positive }.

#[global] Instance pyclass_eq_dec : EqDecision pyclass.
Proof. solve_decision. Defined.

(** The texts of the exceptions raised in the two source files, with the
    interpolated names kept and the interpolated [type(...)] dropped. *)
Inductive message :=
| module_must_be_a_class
| is_already_registered_in (cls module_name : string)
| is_not_in_registry (module_name : string)
| is_not_registered_in (cls module_name : string)
| cfg_must_be_a_dict
| cfg_must_contain_the_key_typename
| registry_must_be_a_registry_object
| default_args_must_be_a_dict_or_None
| type_must_be_a_str
| policies_must_be_a_non_empty_list
| each_policy_must_be_a_non_empty_list
| each_augmentation_must_be_a_dict_with_key_type
| missing_key (k : string)
| has_no_attribute (name : string)
| object_is_not_callable
| object_is_not_iterable
| a_must_be_non_empty.

Inductive exn :=
| TypeError (m : message)
| KeyError (m : message)
| AssertionError (m : message)
| AttributeError (m : message)
| ValueError (m : message).

Inductive result (A : Type) :=
| Return (a : A)
| Raise (e : exn).
Arguments Return {A} a.
Arguments Raise {A} e.

Definition returns {A} (r : result A) : Prop := ∃ a, r = Return a.

Definition loc := positive.

(** ** The registry *)

Module Registry.

(** Values that reach the registry and the builder.  Dicts and lists given
    to the builder are only read (the builder works on [cfg.copy()]), so
    they are carried by value; a [Registry] instance is shared and mutated,
    so it is carried by reference ([VObject]).  Dict keys are strings, as
    keyword arguments require. *)
Inductive pyval :=
| VNone
| VBool (b : bool)
| VInt (z : Z)
| VStr (s : string)
| VClass (c : pyclass)
| VList (xs : list pyval)
| VDict (d : gmap string pyval)
| VObject (l : loc)
| VInstance (c : pyclass) (kwargs : gmap string pyval).

(** The two-level mapping: module category -> class name -> registered
    value. *)
Abbreviation module_dict := (gmap string (gmap string pyval)).

(** Store objects: a [Registry] instance with its [_module_dict] attribute
    (absent until [__init__] has run), and the dict objects that attribute
    refers to. *)
Inductive object :=
| Instance (_module_dict : option loc)
| Dict (items : module_dict).

(** The process: the class attribute [Registry._instance] and the store. *)
Record process := Process {
  _instance : option loc;
  objects : gmap loc object
}.

Definition M (A : Type) : Type := process → process * result A.

Definition ret {A} (a : A) : M A := λ p, (p, Return a).
Definition raise {A} (e : exn) : M A := λ p, (p, Raise e).
Definition bind {A B} (m : M A) (k : A → M B) : M B := λ p,
  match m p with
  | (p', Return a) => k a p'
  | (p', Raise e) => (p', Raise e)
  end.

Notation "'let*' x ':=' m 'in' k" := (bind m (λ x, k))
  (at level 10, x name, m at level 100, k at level 200, only parsing).

Definition alloc (o : object) : M loc := λ p,
  let l := fresh (dom (objects p)) in
  (Process (_instance p) (<[l := o]> (objects p)), Return l).

Definition store (l : loc) (o : object) : M unit := λ p,
  (Process (_instance p) (<[l := o]> (objects p)), Return tt).

(** [self._module_dict], dereferenced. *)
Definition self_module_dict (self : loc) : M (loc * module_dict) := λ p,
  match objects p !! self with
  | Some (Instance (Some d)) =>
      match objects p !! d with
      | Some (Dict md) => (p, Return (d, md))
      | _ => (p, Raise (AttributeError (has_no_attribute "_module_dict")))
      end
  | _ => (p, Raise (AttributeError (has_no_attribute "_module_dict")))
  end.

(** What the [module_dict] property shows through the reference [self]. *)
Definition module_dict_of (p : process) (self : loc) : option module_dict :=
  match self_module_dict self p with
  | (_, Return (_, md)) => Some md
  | _ => None
  end.

(** [dict.setdefault(k, v)] on a dict value. *)
Definition setdefault {V} (k : string) (v : V) (d : gmap string V) : gmap string V :=
  match d !! k with
  | Some _ => d
  | None => <[k := v]> d
  end.

(** [Registry.__new__]: the instance is created on the first request only. *)
Definition __new__ : M loc := λ p,
  match _instance p with
  | None =>
      let l := fresh (dom (objects p)) in
      (Process (Some l) (<[l := Instance None]> (objects p)), Return l)
  | Some l => (p, Return l)
  end.

(** [Registry.__init__]: [self._module_dict = dict()]. *)
Definition __init__ (self : loc) : M unit :=
  let* d := alloc (Dict ∅) in
  store self (Instance (Some d)).

(** [Registry()]: Python calls [__new__] and then, the result being an
    instance of the class, [__init__] on it. *)
Definition Registry : M loc :=
  let* self := __new__ in
  let* _ := __init__ self in
  ret self.

Definition __len__ (self : loc) : M nat :=
  let* dmd := self_module_dict self in
  ret (size dmd.2).

Definition get (self : loc) (cls_name : string) (module_name : string) : M pyval :=
  let* dmd := self_module_dict self in
  match dmd.2 !! module_name with
  | None => raise (KeyError (is_not_in_registry module_name))
  | Some dd =>
      match dd !! cls_name with
      | None => raise (KeyError (is_not_registered_in cls_name module_name))
      | Some v => ret v
      end
  end.

Definition is_None (v : pyval) : bool :=
  match v with VNone => true | _ => false end.

(** [key in registry]: [self.get(key) is not None], with [get]'s default
    [module_name='module']. *)
Definition __contains__ (self : loc) (key : string) : M bool :=
  let* v := get self key "module" in
  ret (negb (is_None v)).

Definition _register_module (self : loc) (cls : pyval) (module_name : string) : M unit :=
  match cls with
  | VClass c =>
      let cls_name := cls_name c in
      let* dmd := self_module_dict self in
      let d := dmd.1 in
      let md := setdefault module_name ∅ dmd.2 in
      let* _ := store d (Dict md) in
      match md !! module_name with
      | None => raise (KeyError (missing_key module_name))
      | Some dd =>
          if decide (is_Some (dd !! cls_name))
          then raise (KeyError (is_already_registered_in cls_name module_name))
          else store d (Dict (<[module_name := <[cls_name := cls]> dd]> md))
      end
  | _ => raise (TypeError module_must_be_a_class)
  end.

(** The decorator: registers and hands the class back. *)
Definition register_module (self : loc) (module_name : string) (cls : pyval) : M pyval :=
  let* _ := _register_module self cls module_name in
  ret cls.

(** *** Config-driven construction *)

(** [isinstance(v, dict)], with the dict's items when it holds. *)
Definition dict_items (p : process) (v : pyval) : option (gmap string pyval) :=
  match v with
  | VDict d => Some d
  | VObject l =>
      match objects p !! l with
      | Some (Dict md) => Some (VDict <$> md)
      | _ => None
      end
  | _ => None
  end.

Definition as_dict (v : pyval) : M (option (gmap string pyval)) :=
  λ p, (p, Return (dict_items p v)).

(** [isinstance(v, Registry)], with the instance's location when it holds. *)
Definition registry_instance (p : process) (v : pyval) : option loc :=
  match v with
  | VObject l =>
      match objects p !! l with
      | Some (Instance _) => Some l
      | _ => None
      end
  | _ => None
  end.

Definition as_Registry (v : pyval) : M (option loc) :=
  λ p, (p, Return (registry_instance p v)).

(** Modelled from the spec: [is_str] comes from [vedacore/misc/utils.py],
    which is not among the sources; the spec says of the value read from
    [typename] that it "must be a string, else TypeError-class failure". *)
Definition is_str (v : pyval) : option string :=
  match v with VStr s => Some s | _ => None end.

(** [d.pop(k)]: the value and the dict without the key. *)
Definition pop (k : string) (d : gmap string pyval) : M (pyval * gmap string pyval) :=
  match d !! k with
  | Some v => ret (v, delete k d)
  | None => raise (KeyError (missing_key k))
  end.

(** [for name, value in default_args.items(): args.setdefault(name, value)] *)
Definition fill_defaults (default_args args : gmap string pyval) : gmap string pyval :=
  map_fold (λ name value args, setdefault name value args) args default_args.

Section Builder.

(** Calling a class runs its constructor, which belongs to the class and
    not to these files: the builder is stated for any constructor. *)
Variable construct : pyclass → gmap string pyval → M pyval.

(** [f( **kwargs )] *)
Definition call (f : pyval) (kwargs : gmap string pyval) : M pyval :=
  match f with
  | VClass c => construct c kwargs
  | _ => raise (TypeError object_is_not_callable)
  end.

Definition build_from_cfg (cfg registry : pyval) (module_name : string)
    (default_args : pyval) : M pyval :=
  let* cfg_dict := as_dict cfg in
  match cfg_dict with
  | None => raise (TypeError cfg_must_be_a_dict)
  | Some cfg_dict =>
      if decide (cfg_dict !! "typename" = None)
      then raise (KeyError cfg_must_contain_the_key_typename)
      else
        let* reg := as_Registry registry in
        match reg with
        | None => raise (TypeError registry_must_be_a_registry_object)
        | Some self =>
            let* defaults := as_dict default_args in
            if negb (bool_decide (is_Some defaults) || is_None default_args)
            then raise (TypeError default_args_must_be_a_dict_or_None)
            else
              let args := cfg_dict in
              let* popped := pop "typename" args in
              let obj_type := popped.1 in
              let args := popped.2 in
              match is_str obj_type with
              | Some name =>
                  let* obj_cls := get self name module_name in
                  let args :=
                    match defaults with
                    | Some defaults => fill_defaults defaults args
                    | None => args
                    end in
                  call obj_cls args
              | None => raise (TypeError type_must_be_a_str)
              end
        end
  end.

(** [getattr(module, name)], the module (or any other object) being given
    by its attributes. *)
Definition getattr (module : gmap string pyval) (name : string) : M pyval :=
  match module !! name with
  | Some v => ret v
  | None => raise (AttributeError (has_no_attribute name))
  end.

Definition build_from_module (cfg : pyval) (module : gmap string pyval)
    (default_args : pyval) : M pyval :=
  let* cfg_dict := as_dict cfg in
  match cfg_dict with
  | None => raise (TypeError cfg_must_be_a_dict)
  | Some cfg_dict =>
      if decide (cfg_dict !! "typename" = None)
      then raise (KeyError cfg_must_contain_the_key_typename)
      else
        let* defaults := as_dict default_args in
        if negb (bool_decide (is_Some defaults) || is_None default_args)
        then raise (TypeError default_args_must_be_a_dict_or_None)
        else
          let args := cfg_dict in
          let* popped := pop "typename" args in
          let obj_type := popped.1 in
          let args := popped.2 in
          match is_str obj_type with
          | Some name =>
              let* obj_cls := getattr module name in
              let args :=
                match defaults with
                | Some defaults => fill_defaults defaults args
                | None => args
                end in
              call obj_cls args
          | None => raise (TypeError type_must_be_a_str)
          end
  end.

End Builder.

(** *** Vocabulary of the statements *)

(** A value is registered under [(module_name, cls_name)]. *)
Definition registered (md : module_dict) (module_name cls_name : string) : Prop :=
  is_Some (md !! module_name ≫= λ dd, dd !! cls_name).

#[global] Instance registered_dec md m name : Decision (registered md m name).
Proof. unfold registered. apply _. Defined.

Definition is_class (v : pyval) : bool :=
  match v with VClass _ => true | _ => false end.

(** The keyword arguments as the claim words them: the non-typename
    entries of [cfg], and the entries of [default_args] whose keys are
    absent from [cfg]. *)
Definition claimed_kwargs (cfg default_args : gmap string pyval) : gmap string pyval :=
  delete "typename" cfg ∪ filter (λ kv, cfg !! kv.1 = None) default_args.

(** The keyword arguments with the defaults taken where the non-typename
    entries of [cfg] have no such key. *)
Definition merged_kwargs (cfg default_args : gmap string pyval) : gmap string pyval :=
  delete "typename" cfg
  ∪ filter (λ kv, delete "typename" cfg !! kv.1 = None) default_args.

(** Every registered value is a class. *)
Definition only_classes (md : module_dict) : Prop :=
  map_Forall (λ _ dd, map_Forall (λ _ v, is_class v = true) dd) md.

(** The instance recorded in [Registry._instance], if any, is an object of
    the store. *)
Definition well_formed (p : process) : Prop :=
  ∀ l, _instance p = Some l → l ∈ dom (objects p).

(** A constructor that records the class and the keyword arguments it was
    called with, as [Foo(a=1, b=2)] does for a class that stores them. *)
Definition recording : pyclass → gmap string pyval → M pyval :=
  λ c kwargs, ret (VInstance c kwargs).

(** Sample data: a class [Foo], the process before any registry exists,
    and the process after [Registry()] and the registration of [Foo] under
    the category [cat]. *)
Definition Foo : pyclass := PyClass "Foo" 1.
Definition Foo' : pyclass := PyClass "Foo" 2.

Definition process0 : process := Process None ∅.

Definition process_with_Foo : process :=
  Process (Some 1%positive)
    (<[2%positive := Dict {[ "cat" := {[ "Foo" := VClass Foo ]} ]}]>
       (<[1%positive := Instance (Some 2%positive)]> ∅)).

End Registry.

(** ** AutoAugment *)

Module AutoAugment.

(** Policies are mutable Python data: lists and dicts are objects in a heap
    and values refer to them by location, so that two references to one
    list are one list.  The values covered are those of configuration data:
    None, booleans, integers, strings, class handles, lists and dicts with
    string keys. *)
Inductive val :=
| VNone
| VBool (b : bool)
| VInt (z : Z)
| VStr (s : string)
| VClass (c : pyclass)
| VRef (l : loc).

Inductive obj :=
| OList (items : list val)
| ODict (items : gmap string val).

Abbreviation heap := (gmap loc obj).

(** [isinstance(v, list)] and [isinstance(v, dict)], with the items. *)
Definition as_list (h : heap) (v : val) : option (list val) :=
  match v with
  | VRef l => match h !! l with Some (OList xs) => Some xs | _ => None end
  | _ => None
  end.

Definition as_dict (h : heap) (v : val) : option (gmap string val) :=
  match v with
  | VRef l => match h !! l with Some (ODict d) => Some d | _ => None end
  | _ => None
  end.

(** *** [copy.deepcopy] *)

(** [y.append(x)] and [y[k] = x] on the object at [y]. *)
Definition append (y : loc) (x : val) (h : heap) : heap :=
  alter (λ o, match o with OList ys => OList (ys ++ [x]) | o => o end) y h.

Definition setitem (y : loc) (k : string) (x : val) (h : heap) : heap :=
  alter (λ o, match o with ODict d => ODict (<[k := x]> d) | o => o end) y h.

Abbreviation memo := (gmap loc loc).

(** [for a in x: y.append(deepcopy(a, memo))] *)
Fixpoint copy_items (deepcopy : val → memo → heap → option (val * memo * heap))
    (y : loc) (xs : list val) (m : memo) (h : heap) : option (memo * heap) :=
  match xs with
  | [] => Some (m, h)
  | a :: xs =>
      match deepcopy a m h with
      | Some (a', m, h) => copy_items deepcopy y xs m (append y a' h)
      | None => None
      end
  end.

(** [for key, value in x.items(): y[key] = deepcopy(value, memo)]; keys are
    strings, which [deepcopy] returns as they are. *)
Fixpoint copy_entries (deepcopy : val → memo → heap → option (val * memo * heap))
    (y : loc) (kvs : list (string * val)) (m : memo) (h : heap) : option (memo * heap) :=
  match kvs with
  | [] => Some (m, h)
  | (k, a) :: kvs =>
      match deepcopy a m h with
      | Some (a', m, h) => copy_entries deepcopy y kvs m (setitem y k a' h)
      | None => None
      end
  end.

(** [copy.deepcopy(x, memo)] of the Python standard library, on the values
    above: atoms are returned as they are; a list or dict already in the
    memo gives its recorded copy; otherwise an empty copy is created,
    recorded in the memo, and filled with the copies of the items.  The
    recursion is bounded by [fuel], [None] meaning that it ran out. *)
Fixpoint deepcopy_rec (fuel : nat) (x : val) (m : memo) (h : heap)
    : option (val * memo * heap) :=
  match fuel with
  | O => None
  | S fuel =>
      match x with
      | VRef l =>
          match m !! l with
          | Some y => Some (VRef y, m, h)
          | None =>
              match h !! l with
              | Some (OList xs) =>
                  let y := fresh (dom h) in
                  match copy_items (deepcopy_rec fuel) y xs (<[l := y]> m) (<[y := OList []]> h) with
                  | Some (m, h) => Some (VRef y, m, h)
                  | None => None
                  end
              | Some (ODict d) =>
                  let y := fresh (dom h) in
                  match copy_entries (deepcopy_rec fuel) y (map_to_list d) (<[l := y]> m) (<[y := ODict ∅]> h) with
                  | Some (m, h) => Some (VRef y, m, h)
                  | None => None
                  end
              | None => Some (x, m, h)
              end
          end
      | _ => Some (x, m, h)
      end
  end.

(** [copy.deepcopy(x)]: a fresh memo, and a recursion bound that the number
    of objects in the heap justifies (see [deepcopy_total]). *)
Definition deepcopy (x : val) (h : heap) : option (val * heap) :=
  match deepcopy_rec (S (size h)) x ∅ h with
  | Some (y, _, h) => Some (y, h)
  | None => None
  end.

(** *** Construction and invocation *)

(** A finite distribution: outcomes with their probabilities. *)
Definition dist (A : Type) : Type := list (Q * A).

(** [np.random.choice(a)] of NumPy, with its default uniform [p]: each
    position of [a] is drawn with probability [1 / len(a)]; an empty [a] is
    rejected. *)
Definition np_random_choice {A} (a : list A) : result (dist A) :=
  match a with
  | [] => Raise (ValueError a_must_be_non_empty)
  | _ => Return (map (λ x, ((1 # Pos.of_nat (length a))%Q, x)) a)
  end.

Section Pipeline.

(** [Compose] ([pipelines/compose.py]) is not among the sources: a
    pipeline is built from a policy and the heap it lives in, or the
    construction raises; applying a pipeline to a record has an outcome. *)
Variable Pipeline Record_ Outcome : Type.
Variable Compose : val → heap → result Pipeline.
Variable apply : Pipeline → Record_ → Outcome.

Record instance := Instance_ {
  policies : val;
  transforms : list Pipeline
}.

(** [for x in xs: body(x)], stopping at the first exception. *)
Fixpoint for_each {A} (body : A → result unit) (xs : list A) : result unit :=
  match xs with
  | [] => Return tt
  | x :: xs =>
      match body x with
      | Return _ => for_each body xs
      | Raise e => Raise e
      end
  end.

(** [[f(x) for x in xs]], stopping at the first exception. *)
Fixpoint comprehension {A B} (f : A → result B) (xs : list A) : result (list B) :=
  match xs with
  | [] => Return []
  | x :: xs =>
      match f x with
      | Return y =>
          match comprehension f xs with
          | Return ys => Return (y :: ys)
          | Raise e => Raise e
          end
      | Raise e => Raise e
      end
  end.

Definition check_augment (h : heap) (augment : val) : result unit :=
  match as_dict h augment with
  | Some d =>
      if decide (is_Some (d !! "type")) then Return tt
      else Raise (AssertionError each_augmentation_must_be_a_dict_with_key_type)
  | None => Raise (AssertionError each_augmentation_must_be_a_dict_with_key_type)
  end.

Definition check_policy (h : heap) (policy : val) : result unit :=
  match as_list h policy with
  | Some augments =>
      if decide (0 < length augments) then for_each (check_augment h) augments
      else Raise (AssertionError each_policy_must_be_a_non_empty_list)
  | None => Raise (AssertionError each_policy_must_be_a_non_empty_list)
  end.

Definition check_policies (h : heap) (policies : val) : result unit :=
  match as_list h policies with
  | Some ps =>
      if decide (0 < length ps) then for_each (check_policy h) ps
      else Raise (AssertionError policies_must_be_a_non_empty_list)
  | None => Raise (AssertionError policies_must_be_a_non_empty_list)
  end.

(** [AutoAugment.__init__]: the three nested assertions, then the deep
    copy, then one [Compose] per copied policy.  The outer [option] is
    [deepcopy]'s recursion bound. *)
Definition __init__ (policies : val) (h : heap) : option (heap * result instance) :=
  match check_policies h policies with
  | Raise e => Some (h, Raise e)
  | Return _ =>
      match deepcopy policies h with
      | None => None
      | Some (self_policies, h) =>
          match as_list h self_policies with
          | None => Some (h, Raise (TypeError object_is_not_iterable))
          | Some ps =>
              match comprehension (λ policy, Compose policy h) ps with
              | Return ts => Some (h, Return (Instance_ self_policies ts))
              | Raise e => Some (h, Raise e)
              end
          end
      end
  end.

(** [AutoAugment.__call__] *)
Definition __call__ (self : instance) (results : Record_) : result (dist Outcome) :=
  match np_random_choice (transforms self) with
  | Return choice => Return (map (λ wt, (wt.1, apply wt.2 results)) choice)
  | Raise e => Raise e
  end.

End Pipeline.

Arguments Instance_ {Pipeline} policies transforms.
Arguments policies {Pipeline} i.
Arguments transforms {Pipeline} i.
Arguments __init__ {Pipeline} Compose policies h.
Arguments __call__ {Pipeline Record_ Outcome} apply self results.

(** *** Vocabulary of the statements *)

(** Every reference in a value, or an object, lies in the set [S]. *)
Definition val_in (S : gset loc) (v : val) : Prop :=
  match v with VRef l => l ∈ S | _ => True end.

Definition obj_in (S : gset loc) (o : obj) : Prop :=
  match o with
  | OList xs => Forall (val_in S) xs
  | ODict d => map_Forall (λ _, val_in S) d
  end.

#[global] Instance val_in_dec S v : Decision (val_in S v).
Proof. destruct v; simpl; apply _. Defined.

#[global] Instance obj_in_dec S o : Decision (obj_in S o).
Proof. destruct o; simpl; apply _. Defined.

(** A heap without dangling references, as every Python heap is. *)
Definition closed (h : heap) : Prop :=
  map_Forall (λ _ o, obj_in (dom h) o) h.

#[global] Instance closed_dec h : Decision (closed h).
Proof. unfold closed. apply _. Defined.

(** The object [o] holds the value [v] as an item. *)
Definition holds (o : obj) (v : val) : Prop :=
  match o with
  | OList xs => v ∈ xs
  | ODict d => ∃ k, d !! k = Some v
  end.

(** The objects that can be reached from a value by following items. *)
Inductive reachable (h : heap) : val → loc → Prop :=
| reachable_ref l : reachable h (VRef l) l
| reachable_item l o v l' :
    h !! l = Some o → holds o v → reachable h v l' → reachable h (VRef l) l'.

(** The shape the spec asks of [policies]: a non-empty list of non-empty
    lists of dicts that each contain the key 'type'. *)
Definition valid_augment (h : heap) (augment : val) : Prop :=
  ∃ d, as_dict h augment = Some d ∧ is_Some (d !! "type").

Definition valid_policy (h : heap) (policy : val) : Prop :=
  ∃ augments, as_list h policy = Some augments ∧ augments ≠ []
              ∧ Forall (valid_augment h) augments.

Definition valid_policies (h : heap) (policies : val) : Prop :=
  ∃ ps, as_list h policies = Some ps ∧ ps ≠ [] ∧ Forall (valid_policy h) ps.

(** A later heap [h2] differs from the heap [h'] left by a construction
    started in [h] only by what callers can do: it may change any object
    that existed in [h] and allocate new ones. *)
Definition mutated_by_caller (h h' h2 : heap) : Prop :=
  ∀ l, l ∈ dom h' → l ∉ dom h → h2 !! l = h' !! l.

(** The invariant of [deepcopy] started in the heap [h0]: the objects of
    [h0] are as they were, the memo sends objects of [h0] to objects
    created since, and the objects created since refer to such objects
    only. *)
Definition copying (h0 : heap) (m : memo) (h : heap) : Prop :=
  h0 ⊆ h
  ∧ (∀ l y, m !! l = Some y → l ∈ dom h0 ∧ y ∈ dom h ∖ dom h0)
  ∧ (∀ y o, h !! y = Some o → y ∉ dom h0 → obj_in (dom h ∖ dom h0) o).

(** What a call of [deepcopy_rec] with [fuel] achieves from a state that
    satisfies the invariant, when the fuel exceeds the number of objects
    of [h0] not yet in the memo: it returns, keeps the invariant, extends
    the memo and the heap, returns a value that refers to created objects
    only, and copies a list not yet in the memo to a list of the same
    length. *)
Definition copies (h0 : heap) (fuel : nat) : Prop :=
  ∀ x m h,
    copying h0 m h → val_in (dom h0) x → size (dom h0 ∖ dom m) < fuel →
    ∃ x' m' h',
      deepcopy_rec fuel x m h = Some (x', m', h')
      ∧ copying h0 m' h' ∧ m ⊆ m' ∧ h ⊆ h'
      ∧ val_in (dom h' ∖ dom h0) x'
      ∧ ∀ l xs, x = VRef l → m !! l = None → h0 !! l = Some (OList xs) →
          ∃ y ys, x' = VRef y ∧ h' !! y = Some (OList ys) ∧ length ys = length xs.

(** [Compose] reads nothing but what its argument reaches. *)
Definition reads_its_argument {Pipeline} (Compose : val → heap → result Pipeline) : Prop :=
  ∀ v ha hb, (∀ l, reachable ha v l → hb !! l = ha !! l) → Compose v hb = Compose v ha.

(** The probabilities of a distribution, summed. *)
Definition total {A} (d : dist A) : Q := foldr Qplus 0%Q (d.*1).

(** Sample heaps: [[]], [[[]]] and [[[{'type': 'X'}]]] at location 1. *)
Definition heap_empty_policies : heap := {[ 1%positive := OList [] ]}.

Definition heap_empty_policy : heap :=
  <[1%positive := OList [VRef 2%positive]]> {[ 2%positive := OList [] ]}.

Definition heap_one_augment : heap :=
  <[1%positive := OList [VRef 2%positive]]>
    (<[2%positive := OList [VRef 3%positive]]>
       {[ 3%positive := ODict {[ "type" := VStr "X" ]} ]}).

(** A stand-in for [Compose] that keeps the policy it is given. *)
Definition keep_policy (policy : val) (h : heap) : result val := Return policy.

(** A stand-in for a [Compose] that does not know the transform it is asked
    to build. *)
Definition unknown_transform (policy : val) (h : heap) : result val :=
  Raise (KeyError (is_not_in_registry "pipeline")).

End AutoAugment.

(** * Properties of the registry *)

Module RegistryFacts.
Import Registry.

Lemma module_dict_of_Some p self md :
  module_dict_of p self = Some md ↔
  ∃ d, objects p !! self = Some (Instance (Some d)) ∧ objects p !! d = Some (Dict md).
Proof.
  unfold module_dict_of, self_module_dict.
  destruct (objects p !! self) as [[[d|]|]|] eqn:Hself;
    try (split; [discriminate | intros (? & ? & ?); congruence]).
  destruct (objects p !! d) as [[|md']|] eqn:Hd; simpl.
  - split; [discriminate | intros (? & ? & ?); congruence].
  - split.
    + intros [= ->]. eauto.
    + intros (d' & [= <-] & Hd'). congruence.
  - split; [discriminate | intros (? & ? & ?); congruence].
Qed.

Lemma self_module_dict_Some p self d md :
  objects p !! self = Some (Instance (Some d)) →
  objects p !! d = Some (Dict md) →
  self_module_dict self p = (p, Return (d, md)).
Proof. intros Hs Hd. unfold self_module_dict. by rewrite Hs, Hd. Qed.

Lemma self_module_dict_inv p self p' r :
  self_module_dict self p = (p', r) →
  p' = p ∧
  (∀ d md, r = Return (d, md) →
     objects p !! self = Some (Instance (Some d)) ∧ objects p !! d = Some (Dict md)).
Proof.
  unfold self_module_dict.
  destruct (objects p !! self) as [[[d|]|]|] eqn:Hself;
    try (intros [= <- <-]; split; [done | discriminate]).
  destruct (objects p !! d) as [[|md']|] eqn:Hd;
    intros [= <- <-]; (split; [done|]); try discriminate.
  intros ? ? [= <- <-]. done.
Qed.

Lemma process_insert_id p d o :
  objects p !! d = Some o → Process (_instance p) (<[d := o]> (objects p)) = p.
Proof. intros H. rewrite insert_id by done. by destruct p. Qed.

Lemma setdefault_present {V} k (v w : V) (d : gmap string V) :
  d !! k = Some w → setdefault k v d = d.
Proof. intros H. unfold setdefault. by rewrite H. Qed.

Lemma setdefault_absent {V} k (v : V) (d : gmap string V) :
  d !! k = None → setdefault k v d = <[k := v]> d.
Proof. intros H. unfold setdefault. by rewrite H. Qed.

Lemma setdefault_lookup {V} k (v : V) (d : gmap string V) :
  setdefault k v d !! k = Some (default v (d !! k)).
Proof.
  unfold setdefault. destruct (d !! k) eqn:H; simpl; [done|].
  by rewrite lookup_insert_eq.
Qed.

Lemma registered_iff md m name :
  registered md m name ↔ ∃ dd v, md !! m = Some dd ∧ dd !! name = Some v.
Proof.
  unfold registered. destruct (md !! m) as [dd|]; simpl.
  - split; [intros [v Hv]; eauto | intros (? & v & [= <-] & Hv); eauto].
  - split; [intros [? [=]] | intros (? & ? & [=] & _)].
Qed.

(** What a registration does, case by case. *)
Lemma _register_module_class p self d md c m :
  objects p !! self = Some (Instance (Some d)) →
  objects p !! d = Some (Dict md) →
  _register_module self (VClass c) m p =
    if decide (registered md m (cls_name c))
    then (p, Raise (KeyError (is_already_registered_in (cls_name c) m)))
    else (Process (_instance p)
            (<[d := Dict (<[m := <[cls_name c := VClass c]> (default ∅ (md !! m))]> md)]>
               (objects p)),
          Return tt).
Proof.
  intros Hs Hd. unfold _register_module, bind.
  rewrite (self_module_dict_Some _ _ _ _ Hs Hd). simpl.
  destruct (decide (registered md m (cls_name c))) as [Hr|Hr].
  - apply registered_iff in Hr as (dd & v & Hm & Hv).
    rewrite (setdefault_present _ _ _ _ Hm), (process_insert_id _ _ _ Hd), Hm.
    by rewrite decide_True by eauto.
  - destruct (md !! m) as [dd|] eqn:Hm.
    + rewrite (setdefault_present _ _ _ _ Hm), (process_insert_id _ _ _ Hd), Hm.
      rewrite decide_False; [done|].
      intros [v Hv]. apply Hr, registered_iff. eauto.
    + rewrite (setdefault_absent _ _ _ Hm). unfold store at 1. simpl.
      rewrite lookup_insert_eq.
      rewrite decide_False by (rewrite lookup_empty; by intros [? [=]]).
      unfold store. simpl. by rewrite !insert_insert_eq.
Qed.

Lemma _register_module_not_class p self v m :
  is_class v = false →
  _register_module self v m p = (p, Raise (TypeError module_must_be_a_class)).
Proof. by destruct v. Qed.

Lemma get_spec p self d md name m :
  objects p !! self = Some (Instance (Some d)) →
  objects p !! d = Some (Dict md) →
  get self name m p =
    match md !! m with
    | None => (p, Raise (KeyError (is_not_in_registry m)))
    | Some dd =>
        match dd !! name with
        | None => (p, Raise (KeyError (is_not_registered_in name m)))
        | Some v => (p, Return v)
        end
    end.
Proof.
  intros Hs Hd. unfold get, bind.
  rewrite (self_module_dict_Some _ _ _ _ Hs Hd). simpl.
  destruct (md !! m) as [dd|]; [|done]. by destruct (dd !! name).
Qed.

(** C10. Registration is atomic on failure: whenever [_register_module]
    raises, the process after the call is the process before it, and so is
    the module_dict seen through the registry. *)
Theorem failed_registration_changes_nothing p self cls m p' e :
  _register_module self cls m p = (p', Raise e) →
  p' = p ∧ module_dict_of p' self = module_dict_of p self.
Proof.
  intros H. cut (p' = p); [by intros -> |].
  destruct (is_class cls) eqn:Hcls.
  - destruct cls; try discriminate.
    destruct (self_module_dict self p) as [q r] eqn:E.
    pose proof E as [-> HE]%self_module_dict_inv.
    destruct r as [[d md]|e0].
    + destruct (HE _ _ eq_refl) as [Hs Hd].
      rewrite (_register_module_class _ _ _ _ _ _ Hs Hd) in H.
      case_decide; by simplify_eq.
    + unfold _register_module, bind in H. rewrite E in H. by simplify_eq.
  - rewrite _register_module_not_class in H by done. by simplify_eq.
Qed.

Lemma failed_registration_changes_nothing_witness :
  (_register_module 1%positive (VClass Foo') "cat" process_with_Foo).1 = process_with_Foo
  ∧ module_dict_of (_register_module 1%positive (VClass Foo') "cat" process_with_Foo).1 1%positive
    = module_dict_of process_with_Foo 1%positive.
Proof.
  apply (failed_registration_changes_nothing process_with_Foo 1%positive
           (VClass Foo') "cat" _ (KeyError (is_already_registered_in "Foo" "cat"))).
  vm_compute. reflexivity.
Defined.

(** C4. Through a registry whose module_dict is [md]: registering a class
    whose name is already registered in the category raises the KeyError
    "is already registered in"; registering a value that is not a class
    raises the TypeError "module must be a class"; and a class name
    registered in neither of two different categories is registered in
    both, one after the other, each lookup then giving the class registered
    there. *)
Theorem registration_errors p self md :
  module_dict_of p self = Some md →
  (∀ c m, registered md m (cls_name c) →
     _register_module self (VClass c) m p
     = (p, Raise (KeyError (is_already_registered_in (cls_name c) m))))
  ∧ (∀ v m, is_class v = false →
     _register_module self v m p = (p, Raise (TypeError module_must_be_a_class)))
  ∧ (∀ c1 c2 m1 m2, cls_name c1 = cls_name c2 → m1 ≠ m2 →
     ¬ registered md m1 (cls_name c1) → ¬ registered md m2 (cls_name c2) →
     ∃ p1 p2,
       _register_module self (VClass c1) m1 p = (p1, Return tt)
       ∧ _register_module self (VClass c2) m2 p1 = (p2, Return tt)
       ∧ get self (cls_name c1) m1 p2 = (p2, Return (VClass c1))
       ∧ get self (cls_name c2) m2 p2 = (p2, Return (VClass c2))).
Proof.
  intros (d & Hs & Hd)%module_dict_of_Some. split; [|split].
  - intros c m Hr. rewrite (_register_module_class _ _ _ _ _ _ Hs Hd).
    by rewrite decide_True.
  - intros v m Hv. by apply _register_module_not_class.
  - intros c1 c2 m1 m2 Hname Hm Hr1 Hr2.
    assert (self ≠ d) as Hsd by (intros ->; congruence).
    set (md1 := <[m1 := <[cls_name c1 := VClass c1]> (default ∅ (md !! m1))]> md).
    set (p1 := Process (_instance p) (<[d := Dict md1]> (objects p))).
    set (md2 := <[m2 := <[cls_name c2 := VClass c2]> (default ∅ (md1 !! m2))]> md1).
    set (p2 := Process (_instance p1) (<[d := Dict md2]> (objects p1))).
    assert (objects p1 !! self = Some (Instance (Some d))) as Hs1
      by (simpl; by rewrite lookup_insert_ne).
    assert (objects p1 !! d = Some (Dict md1)) as Hd1
      by (simpl; by rewrite lookup_insert_eq).
    assert (objects p2 !! self = Some (Instance (Some d))) as Hs2
      by (simpl; by rewrite lookup_insert_ne).
    assert (objects p2 !! d = Some (Dict md2)) as Hd2
      by (simpl; by rewrite lookup_insert_eq).
    exists p1, p2. repeat split.
    + rewrite (_register_module_class _ _ _ _ _ _ Hs Hd). by rewrite decide_False.
    + rewrite (_register_module_class _ _ _ _ _ _ Hs1 Hd1). rewrite decide_False; [done|].
      intros (dd & v & Hdd & Hv)%registered_iff. apply Hr2, registered_iff.
      unfold md1 in Hdd. rewrite lookup_insert_ne in Hdd by done. eauto.
    + rewrite (get_spec _ _ _ _ _ _ Hs2 Hd2). unfold md2, md1.
      rewrite lookup_insert_ne by done. rewrite lookup_insert_eq.
      by rewrite lookup_insert_eq.
    + rewrite (get_spec _ _ _ _ _ _ Hs2 Hd2). unfold md2.
      rewrite lookup_insert_eq. by rewrite lookup_insert_eq.
Qed.

Lemma registration_errors_witness :
  _register_module 1%positive (VClass Foo') "cat" process_with_Foo
  = (process_with_Foo, Raise (KeyError (is_already_registered_in "Foo" "cat")))
  ∧ _register_module 1%positive (VStr "Foo") "cat" process_with_Foo
    = (process_with_Foo, Raise (TypeError module_must_be_a_class))
  ∧ ∃ p1 p2,
      _register_module 1%positive (VClass Foo) "dataset" process_with_Foo = (p1, Return tt)
      ∧ _register_module 1%positive (VClass Foo') "model" p1 = (p2, Return tt)
      ∧ get 1%positive "Foo" "dataset" p2 = (p2, Return (VClass Foo))
      ∧ get 1%positive "Foo" "model" p2 = (p2, Return (VClass Foo')).
Proof.
  destruct (registration_errors process_with_Foo 1%positive
              {[ "cat" := {[ "Foo" := VClass Foo ]} ]} eq_refl) as (Hdup & Hty & Hindep).
  split; [|split].
  - apply (Hdup Foo' "cat"). vm_compute. eauto.
  - apply (Hty (VStr "Foo") "cat"). reflexivity.
  - apply (Hindep Foo Foo' "dataset" "model"); [reflexivity | discriminate | |];
      vm_compute; by intros [? [=]].
Defined.

(** C7. [__len__] returns the number of module categories, the key count
    of the top level of the two-level mapping: registering one more class
    in a category that exists leaves it unchanged, registering a class in a
    new category adds one. *)
Theorem len_counts_categories p self md :
  module_dict_of p self = Some md →
  __len__ self p = (p, Return (size (dom md)))
  ∧ (∀ c m p', is_Some (md !! m) →
       _register_module self (VClass c) m p = (p', Return tt) →
       __len__ self p' = (p', Return (size (dom md))))
  ∧ (∀ c m p', md !! m = None →
       _register_module self (VClass c) m p = (p', Return tt) →
       __len__ self p' = (p', Return (S (size (dom md))))).
Proof.
  intros (d & Hs & Hd)%module_dict_of_Some.
  assert (self ≠ d) as Hsd by (intros ->; congruence).
  assert (∀ q d' md', objects q !! self = Some (Instance (Some d')) →
            objects q !! d' = Some (Dict md') →
            __len__ self q = (q, Return (size (dom md')))) as Hlen.
  { intros q d' md' Hs' Hd'. unfold __len__, bind.
    rewrite (self_module_dict_Some _ _ _ _ Hs' Hd'). simpl.
    by rewrite size_dom. }
  split; [by eapply Hlen|]. split.
  - intros c m p' [dd Hm] H.
    rewrite (_register_module_class _ _ _ _ _ _ Hs Hd) in H.
    case_decide; simplify_eq.
    erewrite Hlen; [| simpl; by rewrite lookup_insert_ne | simpl; by rewrite lookup_insert_eq].
    rewrite dom_insert_L. do 3 f_equal.
    assert (m ∈ dom md) as Hin by (apply elem_of_dom; eauto).
    apply set_eq. intros k. rewrite elem_of_union, elem_of_singleton.
    split; [intros [->|]; done | auto].
  - intros c m p' Hm H.
    rewrite (_register_module_class _ _ _ _ _ _ Hs Hd) in H.
    case_decide; simplify_eq.
    erewrite Hlen; [| simpl; by rewrite lookup_insert_ne | simpl; by rewrite lookup_insert_eq].
    rewrite dom_insert_L, size_union, size_singleton; [done|].
    apply not_elem_of_dom in Hm. set_solver.
Qed.

Lemma len_counts_categories_witness :
  __len__ 1%positive process_with_Foo = (process_with_Foo, Return 1)
  ∧ (∀ p', _register_module 1%positive (VClass (PyClass "Bar" 3)) "cat" process_with_Foo
           = (p', Return tt) →
       __len__ 1%positive p' = (p', Return 1))
  ∧ (∀ p', _register_module 1%positive (VClass Foo) "dataset" process_with_Foo
           = (p', Return tt) →
       __len__ 1%positive p' = (p', Return 2)).
Proof.
  destruct (len_counts_categories process_with_Foo 1%positive
              {[ "cat" := {[ "Foo" := VClass Foo ]} ]} eq_refl) as (Hlen & Hsame & Hnew).
  split; [exact Hlen | split].
  - intros p'. apply (Hsame (PyClass "Bar" 3) "cat"). vm_compute. eauto.
  - intros p'. apply (Hnew Foo "dataset"). reflexivity.
Defined.

(** *** Membership *)

(** Whatever [get] raises under the default category, [__contains__]
    raises too: nothing catches it. *)
Lemma contains_propagates p self key p' e :
  get self key "module" p = (p', Raise e) →
  __contains__ self key p = (p', Raise e).
Proof. intros H. unfold __contains__, bind. by rewrite H. Qed.

(** When [__contains__] returns at all, the lookup succeeded. *)
Lemma contains_returns p self key p' b :
  __contains__ self key p = (p', Return b) →
  ∃ v, get self key "module" p = (p', Return v) ∧ b = negb (is_None v).
Proof.
  unfold __contains__, bind. destruct (get self key "module" p) as [q [v|e]];
    intros [= <- <-]; eauto.
Qed.

(** C2. On a registry that has just been created, and on one where [Foo]
    is registered under the category [cat], the membership test for a name
    that [get] does not find does not return [False]: it raises the
    KeyError of [get]. *)
Theorem contains_raises_on_lookup_failure :
  (∃ p1 r, Registry process0 = (p1, Return r)
     ∧ get r "Foo" "module" p1 = (p1, Raise (KeyError (is_not_in_registry "module")))
     ∧ __contains__ r "Foo" p1 = (p1, Raise (KeyError (is_not_in_registry "module"))))
  ∧ __contains__ 1%positive "Foo" process_with_Foo
    = (process_with_Foo, Raise (KeyError (is_not_in_registry "module")))
  ∧ (∀ p self key p' b, __contains__ self key p = (p', Return b) →
       ∃ v, get self key "module" p = (p', Return v)).
Proof.
  split; [|split].
  - eexists _, _. repeat split; vm_compute; reflexivity.
  - vm_compute. reflexivity.
  - intros p self key p' b (v & Hv & _)%contains_returns. eauto.
Qed.

(** *** The singleton *)

Lemma Registry_returns p :
  ∃ p' r, Registry p = (p', Return r) ∧ _instance p' = Some r
          ∧ (∀ l, _instance p = Some l → r = l).
Proof.
  unfold Registry, __init__, __new__, bind, alloc, store, ret.
  destruct (_instance p) as [l|] eqn:Hi; simpl; eexists _, _; repeat split;
    simpl; try done. by intros ? [= ->].
Qed.

(** Every construction request, the first or a later one, leaves the
    registry with an empty module_dict. *)
Lemma Registry_resets p p' r :
  (∀ l, _instance p = Some l → l ∈ dom (objects p)) →
  Registry p = (p', Return r) →
  module_dict_of p' r = Some ∅.
Proof.
  intros Hwf. unfold Registry, __init__, __new__, bind, alloc, store, ret.
  destruct (_instance p) as [l|] eqn:Hi; simpl; intros [= <- <-];
    apply module_dict_of_Some; simpl.
  - set (d := fresh (dom (objects p))).
    assert (l ≠ d) as Hne.
    { intros Heq. apply (is_fresh (dom (objects p))). fold d. rewrite <- Heq.
      by apply Hwf. }
    exists d. rewrite lookup_insert_eq, lookup_insert_ne by done.
    by rewrite lookup_insert_eq.
  - set (l := fresh (dom (objects p))).
    set (d := fresh (dom (<[l := Instance None]> (objects p)))).
    assert (l ≠ d) as Hne.
    { intros Heq. apply (is_fresh (dom (<[l := Instance None]> (objects p)))).
      fold d. rewrite <- Heq, dom_insert_L. set_solver. }
    exists d. rewrite lookup_insert_eq, lookup_insert_ne by done.
    by rewrite lookup_insert_eq.
Qed.

(** C1. The second construction request returns the instance the first one
    returned, and resets it: after [Registry()], the registration of [Foo]
    under [cat] through the returned reference and a second [Registry()],
    the reference is the same, its module_dict is empty, the dict that held
    [Foo] is no longer the registry's, and [get] no longer finds [Foo]. *)
Theorem second_construction_resets_registry :
  ∃ p1 r1 p3 r2,
    Registry process0 = (p1, Return r1)
    ∧ _register_module r1 (VClass Foo) "cat" p1 = (process_with_Foo, Return tt)
    ∧ get r1 "Foo" "cat" process_with_Foo = (process_with_Foo, Return (VClass Foo))
    ∧ Registry process_with_Foo = (p3, Return r2)
    ∧ r2 = r1
    ∧ module_dict_of process_with_Foo r1 = Some {[ "cat" := {[ "Foo" := VClass Foo ]} ]}
    ∧ module_dict_of p3 r1 = Some ∅
    ∧ objects p3 !! r1 ≠ objects process_with_Foo !! r1
    ∧ get r2 "Foo" "cat" p3 = (p3, Raise (KeyError (is_not_in_registry "cat"))).
Proof.
  eexists _, _, _, _. repeat split; try (vm_compute; reflexivity).
  vm_compute. discriminate.
Qed.

End RegistryFacts.

(** * Properties of the builder *)

Module BuilderFacts.
Import Registry RegistryFacts.

Lemma fill_defaults_union (default_args args : gmap string pyval) :
  fill_defaults default_args args = args ∪ default_args.
Proof.
  unfold fill_defaults.
  apply (map_fold_weak_ind (λ r m, r = args ∪ m)).
  - by rewrite (right_id_L ∅ (∪)).
  - intros k v m r Hk ->. unfold setdefault.
    apply map_eq. intros j.
    destruct ((args ∪ m) !! k) as [w|] eqn:Hw.
    + apply lookup_union_Some_raw in Hw as [Ha | [_ Hm]]; [|congruence].
      rewrite !lookup_union. destruct (decide (j = k)) as [->|Hne].
      * by rewrite lookup_insert_eq, Ha, Hk.
      * by rewrite lookup_insert_ne.
    + apply lookup_union_None in Hw as [Ha _].
      rewrite !lookup_union. destruct (decide (j = k)) as [->|Hne].
      * rewrite !lookup_insert_eq, Ha. reflexivity.
      * rewrite !lookup_insert_ne by done. by rewrite lookup_union.
Qed.

Lemma union_absent_only (args default_args : gmap string pyval) :
  args ∪ default_args = args ∪ filter (λ kv, args !! kv.1 = None) default_args.
Proof.
  apply map_eq. intros k. rewrite !lookup_union.
  destruct (args !! k) as [v|] eqn:Ha.
  - by destruct (default_args !! k), (filter _ default_args !! k).
  - destruct (default_args !! k) as [w|] eqn:Hd.
    + by rewrite (map_lookup_filter_Some_2 _ _ k w).
    + by rewrite map_lookup_filter_None_2 by auto.
Qed.

Lemma fill_defaults_merged (cfg default_args : gmap string pyval) :
  fill_defaults default_args (delete "typename" cfg) = merged_kwargs cfg default_args.
Proof. unfold merged_kwargs. by rewrite fill_defaults_union, <- union_absent_only. Qed.

Section Builder.

Variable construct : pyclass → gmap string pyval → M pyval.

(** The builder past its first two checks. *)
Lemma build_from_cfg_dict p cfg d registry m default_args :
  dict_items p cfg = Some d →
  is_Some (d !! "typename") →
  build_from_cfg construct cfg registry m default_args p =
    match registry_instance p registry with
    | None => (p, Raise (TypeError registry_must_be_a_registry_object))
    | Some self =>
        if negb (bool_decide (is_Some (dict_items p default_args)) || is_None default_args)
        then (p, Raise (TypeError default_args_must_be_a_dict_or_None))
        else
          match is_str (default VNone (d !! "typename")) with
          | None => (p, Raise (TypeError type_must_be_a_str))
          | Some name =>
              match get self name m p with
              | (p', Return obj_cls) =>
                  call construct obj_cls
                    match dict_items p default_args with
                    | Some defaults => fill_defaults defaults (delete "typename" d)
                    | None => delete "typename" d
                    end p'
              | (p', Raise e) => (p', Raise e)
              end
          end
    end.
Proof.
  intros Hd [t Ht]. unfold build_from_cfg, bind, as_dict, as_Registry. rewrite Hd.
  rewrite decide_False by congruence.
  destruct (registry_instance p registry) as [self|]; [|done].
  destruct (negb _); [done|].
  unfold pop. rewrite Ht. simpl.
  destruct (is_str t); [|done]. done.
Qed.

(** C3, as amended. For a [cfg] dict whose typename names a class
    registered under the given category: with a [default_args] dict the
    builder returns what calling the class returns on the non-typename
    entries of [cfg] together with the [default_args] entries whose keys
    are absent from those non-typename entries; with no [default_args],
    on the non-typename entries alone.  Entries of [cfg] win on every
    shared key, defaults fill the other keys, and when [default_args]
    has no key 'typename' these are the keyword arguments of the
    claim. *)
Theorem build_merges_defaults p self md m dd name c cfg default_args :
  module_dict_of p self = Some md →
  md !! m = Some dd →
  dd !! name = Some (VClass c) →
  cfg !! "typename" = Some (VStr name) →
  build_from_cfg construct (VDict cfg) (VObject self) m (VDict default_args) p
  = construct c (merged_kwargs cfg default_args) p
  ∧ build_from_cfg construct (VDict cfg) (VObject self) m VNone p
    = construct c (delete "typename" cfg) p
  ∧ (∀ k v, k ≠ "typename" → cfg !! k = Some v →
       merged_kwargs cfg default_args !! k = Some v)
  ∧ (∀ k, cfg !! k = None →
       merged_kwargs cfg default_args !! k = default_args !! k)
  ∧ (default_args !! "typename" = None →
       merged_kwargs cfg default_args = claimed_kwargs cfg default_args).
Proof.
  intros (d & Hs & Hd)%module_dict_of_Some Hm Hname Ht.
  assert (registry_instance p (VObject self) = Some self) as Hreg
    by (simpl; by rewrite Hs).
  split; [|split; [|split; [|split]]].
  - rewrite (build_from_cfg_dict _ _ cfg) by (simpl; eauto).
    rewrite Hreg. simpl. rewrite Ht. simpl.
    rewrite (get_spec _ _ _ _ _ _ Hs Hd), Hm, Hname. simpl.
    by rewrite fill_defaults_merged.
  - rewrite (build_from_cfg_dict _ _ cfg) by (simpl; eauto).
    rewrite Hreg. simpl. rewrite Ht. simpl.
    by rewrite (get_spec _ _ _ _ _ _ Hs Hd), Hm, Hname.
  - intros k v Hk Hv. unfold merged_kwargs.
    apply lookup_union_Some_l. by rewrite lookup_delete_ne.
  - intros k Hk. unfold merged_kwargs.
    assert (delete "typename" cfg !! k = None) as Hdel
      by (apply lookup_delete_None; auto).
    rewrite lookup_union, Hdel.
    destruct (default_args !! k) as [w|] eqn:Hw.
    + by rewrite (map_lookup_filter_Some_2 _ _ k w).
    + by rewrite map_lookup_filter_None_2 by auto.
  - intros Hdef. unfold merged_kwargs, claimed_kwargs. f_equal.
    apply map_filter_ext. intros k v Hv. simpl.
    rewrite lookup_delete_None. split; [|by auto].
    intros [<-|]; [congruence | done].
Qed.

(** C6. The builder fails before any class is looked up or called, and
    leaves the process as it was: TypeError when [cfg] is not a dict;
    KeyError when [cfg] is a dict without the key 'typename'; then, [cfg]
    having passed, TypeError when [registry] is not a [Registry]
    instance; then TypeError when [default_args] is neither None nor a
    dict; then TypeError when the typename value is not a string. *)
Theorem build_rejects_invalid_input p cfg registry m default_args :
  (dict_items p cfg = None →
     build_from_cfg construct cfg registry m default_args p
     = (p, Raise (TypeError cfg_must_be_a_dict)))
  ∧ (∀ d, dict_items p cfg = Some d → d !! "typename" = None →
     build_from_cfg construct cfg registry m default_args p
     = (p, Raise (KeyError cfg_must_contain_the_key_typename)))
  ∧ (∀ d, dict_items p cfg = Some d → is_Some (d !! "typename") →
     registry_instance p registry = None →
     build_from_cfg construct cfg registry m default_args p
     = (p, Raise (TypeError registry_must_be_a_registry_object)))
  ∧ (∀ d, dict_items p cfg = Some d → is_Some (d !! "typename") →
     is_Some (registry_instance p registry) →
     default_args ≠ VNone → dict_items p default_args = None →
     build_from_cfg construct cfg registry m default_args p
     = (p, Raise (TypeError default_args_must_be_a_dict_or_None)))
  ∧ (∀ d t, dict_items p cfg = Some d → d !! "typename" = Some t →
     is_Some (registry_instance p registry) →
     default_args = VNone ∨ is_Some (dict_items p default_args) →
     is_str t = None →
     build_from_cfg construct cfg registry m default_args p
     = (p, Raise (TypeError type_must_be_a_str))).
Proof.
  split; [|split; [|split; [|split]]].
  - intros Hd. unfold build_from_cfg, bind, as_dict. by rewrite Hd.
  - intros d Hd Ht. unfold build_from_cfg, bind, as_dict. rewrite Hd.
    by rewrite decide_True.
  - intros d Hd Ht Hreg. rewrite (build_from_cfg_dict _ _ d) by done.
    by rewrite Hreg.
  - intros d Hd Ht [self Hreg] Hnone Hdef.
    rewrite (build_from_cfg_dict _ _ d) by done. rewrite Hreg, Hdef.
    rewrite bool_decide_eq_false_2 by (by intros [? [=]]).
    by destruct default_args.
  - intros d t Hd Ht [self Hreg] Hdef Hstr.
    rewrite (build_from_cfg_dict _ _ d) by eauto. rewrite Hreg, Ht. simpl.
    rewrite Hstr.
    destruct Hdef as [-> | Hdef]; [done|].
    by rewrite bool_decide_eq_true_2.
Qed.

End Builder.

Lemma build_merges_defaults_witness :
  build_from_cfg recording
    (VDict {[ "typename" := VStr "Foo"; "a" := VInt 1 ]}) (VObject 1%positive) "cat"
    (VDict {[ "a" := VInt 99; "b" := VInt 2 ]}) process_with_Foo
  = (process_with_Foo, Return (VInstance Foo {[ "a" := VInt 1; "b" := VInt 2 ]})).
Proof.
  destruct (build_merges_defaults recording process_with_Foo 1%positive
              {[ "cat" := {[ "Foo" := VClass Foo ]} ]} "cat"
              {[ "Foo" := VClass Foo ]} "Foo" Foo
              {[ "typename" := VStr "Foo"; "a" := VInt 1 ]}
              {[ "a" := VInt 99; "b" := VInt 2 ]}) as [H _];
    [vm_compute; reflexivity ..|].
  rewrite H. vm_compute. reflexivity.
Defined.

(** C3, as claimed, fails when [default_args] has the key 'typename': that
    key is present in [cfg], yet the builder passes the default on, since
    it has removed 'typename' from its copy of [cfg] before filling in the
    defaults. *)
Lemma claimed_kwargs_counterexample :
  build_from_cfg recording
    (VDict {[ "typename" := VStr "Foo" ]}) (VObject 1%positive) "cat"
    (VDict {[ "typename" := VStr "Bar" ]}) process_with_Foo
  = (process_with_Foo, Return (VInstance Foo {[ "typename" := VStr "Bar" ]}))
  ∧ recording Foo
      (claimed_kwargs {[ "typename" := VStr "Foo" ]} {[ "typename" := VStr "Bar" ]})
      process_with_Foo
    = (process_with_Foo, Return (VInstance Foo ∅))
  ∧ build_from_cfg recording
      (VDict {[ "typename" := VStr "Foo" ]}) (VObject 1%positive) "cat"
      (VDict {[ "typename" := VStr "Bar" ]}) process_with_Foo
    ≠ recording Foo
        (claimed_kwargs {[ "typename" := VStr "Foo" ]} {[ "typename" := VStr "Bar" ]})
        process_with_Foo.
Proof.
  split; [vm_compute; reflexivity | split; [vm_compute; reflexivity |]].
  vm_compute. discriminate.
Qed.

Lemma build_rejects_invalid_input_witness :
  build_from_cfg recording (VInt 3) (VObject 1%positive) "module" VNone process_with_Foo
  = (process_with_Foo, Raise (TypeError cfg_must_be_a_dict))
  ∧ build_from_cfg recording (VDict {[ "a" := VInt 1 ]}) (VObject 1%positive) "module" VNone
      process_with_Foo
    = (process_with_Foo, Raise (KeyError cfg_must_contain_the_key_typename))
  ∧ build_from_cfg recording (VDict {[ "typename" := VStr "Foo" ]}) (VStr "registry") "cat"
      VNone process_with_Foo
    = (process_with_Foo, Raise (TypeError registry_must_be_a_registry_object))
  ∧ build_from_cfg recording (VDict {[ "typename" := VStr "Foo" ]}) (VObject 1%positive) "cat"
      (VInt 0) process_with_Foo
    = (process_with_Foo, Raise (TypeError default_args_must_be_a_dict_or_None))
  ∧ build_from_cfg recording (VDict {[ "typename" := VInt 7 ]}) (VObject 1%positive) "cat"
      VNone process_with_Foo
    = (process_with_Foo, Raise (TypeError type_must_be_a_str)).
Proof.
  split; [|split; [|split; [|split]]].
  - apply (proj1 (build_rejects_invalid_input recording process_with_Foo (VInt 3)
                    (VObject 1%positive) "module" VNone)).
    reflexivity.
  - eapply (proj1 (proj2 (build_rejects_invalid_input recording process_with_Foo
                            (VDict {[ "a" := VInt 1 ]}) (VObject 1%positive) "module" VNone)));
      reflexivity.
  - eapply (proj1 (proj2 (proj2 (build_rejects_invalid_input recording process_with_Foo
                            (VDict {[ "typename" := VStr "Foo" ]}) (VStr "registry") "cat"
                            VNone))));
      [reflexivity | vm_compute; eauto | reflexivity].
  - eapply (proj1 (proj2 (proj2 (proj2 (build_rejects_invalid_input recording
                            process_with_Foo (VDict {[ "typename" := VStr "Foo" ]})
                            (VObject 1%positive) "cat" (VInt 0))))));
      [reflexivity | vm_compute; eauto | vm_compute; eauto | discriminate | reflexivity].
  - eapply (proj2 (proj2 (proj2 (proj2 (build_rejects_invalid_input recording
                            process_with_Foo (VDict {[ "typename" := VInt 7 ]})
                            (VObject 1%positive) "cat" VNone)))));
      [reflexivity | reflexivity | vm_compute; eauto | by left | reflexivity].
Defined.

End BuilderFacts.

(** * Properties of AutoAugment *)

Module AutoAugmentFacts.
Import AutoAugment.

(** *** Heaps *)

Lemma val_in_mono (S S' : gset loc) v : S ⊆ S' → val_in S v → val_in S' v.
Proof. destruct v; simpl; set_solver. Qed.

Lemma obj_in_mono (S S' : gset loc) o : S ⊆ S' → obj_in S o → obj_in S' o.
Proof.
  intros HS. destruct o as [xs|d]; simpl.
  - intros H. eapply Forall_impl; [done|]. intros v. by apply val_in_mono.
  - intros H. eapply map_Forall_impl; [done|]. intros k v. by apply val_in_mono.
Qed.

Lemma holds_val_in S o v : obj_in S o → holds o v → val_in S v.
Proof.
  destruct o as [xs|d]; simpl.
  - intros Hall Hv. by eapply Forall_forall in Hall.
  - intros Hall [k Hk]. by eapply Hall.
Qed.

Lemma append_lookup_eq y x h ys :
  h !! y = Some (OList ys) → append y x h !! y = Some (OList (ys ++ [x])).
Proof. intros H. unfold append. by rewrite lookup_alter_eq, H. Qed.

Lemma append_lookup_ne y x h l : l ≠ y → append y x h !! l = h !! l.
Proof. intros H. unfold append. by rewrite lookup_alter_ne. Qed.

Lemma append_dom y x h : dom (append y x h) = dom h.
Proof. unfold append. by rewrite dom_alter_L. Qed.

Lemma setitem_lookup_eq y k x h d :
  h !! y = Some (ODict d) → setitem y k x h !! y = Some (ODict (<[k := x]> d)).
Proof. intros H. unfold setitem. by rewrite lookup_alter_eq, H. Qed.

Lemma setitem_lookup_ne y k x h l : l ≠ y → setitem y k x h !! l = h !! l.
Proof. intros H. unfold setitem. by rewrite lookup_alter_ne. Qed.

Lemma setitem_dom y k x h : dom (setitem y k x h) = dom h.
Proof. unfold setitem. by rewrite dom_alter_L. Qed.

(** Replacing a created object by one that still refers to created objects
    only keeps the invariant. *)
Lemma copying_update h0 m h h' y o :
  copying h0 m h →
  y ∉ dom h0 →
  dom h' = dom h →
  h' !! y = Some o →
  (∀ l, l ≠ y → h' !! l = h !! l) →
  obj_in (dom h ∖ dom h0) o →
  copying h0 m h'.
Proof.
  intros (Hsub & Hmemo & Hnew) Hy Hdom Hy' Hother Ho. split; [|split].
  - apply map_subseteq_spec. intros l o' Hl.
    rewrite Hother.
    + by eapply lookup_weaken.
    + intros ->. apply Hy, elem_of_dom. eauto.
  - intros l y' Hl. rewrite Hdom. by apply Hmemo.
  - intros l o' Hl Hl0. rewrite Hdom.
    destruct (decide (l = y)) as [->|Hne].
    + by simplify_eq.
    + rewrite Hother in Hl by done. by eapply Hnew.
Qed.

(** Allocating an empty object for [l] and recording it in the memo keeps
    the invariant. *)
Lemma copying_alloc h0 m h l o :
  copying h0 m h →
  l ∈ dom h0 →
  obj_in ∅ o →
  copying h0 (<[l := fresh (dom h)]> m) (<[fresh (dom h) := o]> h).
Proof.
  intros (Hsub & Hmemo & Hnew) Hl Ho.
  pose proof (is_fresh (dom h)) as Hfresh.
  assert (fresh (dom h) ∉ dom h0) as Hfresh0.
  { intros Hin. apply Hfresh. by apply (subseteq_dom _ _ Hsub). }
  assert (dom h ∖ dom h0 ⊆ ({[fresh (dom h)]} ∪ dom h) ∖ dom h0) as Hgrow.
  { intros k. rewrite !elem_of_difference, elem_of_union. tauto. }
  split; [|split].
  - apply insert_subseteq_r; [by apply not_elem_of_dom | done].
  - intros l' y'. rewrite dom_insert_L. intros [[-> <-]|[_ Hl']]%lookup_insert_Some.
    + split; [done|]. rewrite elem_of_difference, elem_of_union, elem_of_singleton.
      split; [by left | done].
    + destruct (Hmemo _ _ Hl'). split; [done | by apply Hgrow].
  - intros y' o'. rewrite dom_insert_L. intros [[<- <-]|[_ Hl']]%lookup_insert_Some Hy'.
    + eapply obj_in_mono; [|done]. intros k Hk. by apply not_elem_of_empty in Hk.
    + eapply obj_in_mono; [done | by eapply Hnew].
Qed.

Lemma memo_measure_mono (h0 : heap) (m m' : memo) :
  m ⊆ m' → (size (dom h0 ∖ dom m') ≤ size (dom h0 ∖ dom m))%nat.
Proof.
  intros Hm. apply subseteq_size. intros k.
  rewrite !elem_of_difference. intros [Hk Hk']. split; [done|].
  intros Hin. apply Hk'. by apply (subseteq_dom _ _ Hm).
Qed.

Lemma memo_measure_insert (h0 : heap) (m : memo) l y :
  l ∈ dom h0 → m !! l = None →
  size (dom h0 ∖ dom m) = S (size (dom h0 ∖ dom (<[l := y]> m))).
Proof.
  intros Hl Hm.
  assert (dom h0 ∖ dom m = {[l]} ∪ dom h0 ∖ dom (<[l := y]> m)) as ->.
  { apply set_eq. intros k.
    rewrite dom_insert_L, elem_of_union, !elem_of_difference, elem_of_union,
      elem_of_singleton.
    split.
    - intros [Hk Hk']. destruct (decide (k = l)); [by left | right]. tauto.
    - intros [-> | [Hk Hk']]; [|tauto]. split; [done|]. by apply not_elem_of_dom. }
  rewrite size_union, size_singleton; [done|].
  intros k. rewrite elem_of_singleton, elem_of_difference, dom_insert_L,
    elem_of_union, elem_of_singleton. intros -> [_ Hk]. apply Hk. by left.
Qed.

Section CopyLoops.

Variable h0 : heap.
Variable fuel : nat.
Hypothesis Hrec : copies h0 fuel.
Variable y : loc.
Hypothesis Hy : y ∉ dom h0.

Lemma copy_items_spec xs : ∀ m h ys0,
  copying h0 m h →
  Forall (val_in (dom h0)) xs →
  size (dom h0 ∖ dom m) < fuel →
  h !! y = Some (OList ys0) →
  ∃ m' h',
    copy_items (deepcopy_rec fuel) y xs m h = Some (m', h')
    ∧ copying h0 m' h' ∧ m ⊆ m'
    ∧ (∀ l o, l ≠ y → h !! l = Some o → h' !! l = Some o)
    ∧ ∃ ys, h' !! y = Some (OList (ys0 ++ ys)) ∧ length ys = length xs.
Proof.
  induction xs as [|a xs IH]; intros m h ys0 Hc Hxs Hfuel Hlook; simpl.
  - exists m, h. do 4 (split; [done|]). exists []. by rewrite app_nil_r.
  - apply Forall_cons in Hxs as [Ha Hxs].
    destruct (Hrec a m h Hc Ha Hfuel) as (a' & m1 & h1 & -> & Hc1 & Hm1 & Hh1 & Ha' & _).
    assert (h1 !! y = Some (OList ys0)) as Hlook1 by (by eapply lookup_weaken).
    assert (copying h0 m1 (append y a' h1)) as Hc2.
    { eapply (copying_update _ _ h1); [done | done | apply append_dom
        | by apply append_lookup_eq | intros; by apply append_lookup_ne |].
      simpl. apply Forall_app. split; [|by apply Forall_singleton].
      destruct Hc1 as (_ & _ & Hnew). by apply (Hnew y (OList ys0)). }
    destruct (IH m1 (append y a' h1) (ys0 ++ [a']) Hc2 Hxs)
      as (m' & h' & -> & Hc' & Hm' & Hframe & ys & Hys & Hlen).
    { pose proof (memo_measure_mono h0 _ _ Hm1). lia. }
    { by apply append_lookup_eq. }
    exists m', h'. split; [done|]. split; [done|]. split; [by etrans|]. split.
    + intros l o Hl Ho. apply Hframe; [done|]. rewrite append_lookup_ne by done.
      by eapply lookup_weaken.
    + exists (a' :: ys). rewrite <- app_assoc in Hys. split; [done|]. simpl. by rewrite Hlen.
Qed.

Lemma copy_entries_spec kvs : ∀ m h d0,
  copying h0 m h →
  Forall (λ kv, val_in (dom h0) kv.2) kvs →
  size (dom h0 ∖ dom m) < fuel →
  h !! y = Some (ODict d0) →
  ∃ m' h',
    copy_entries (deepcopy_rec fuel) y kvs m h = Some (m', h')
    ∧ copying h0 m' h' ∧ m ⊆ m'
    ∧ (∀ l o, l ≠ y → h !! l = Some o → h' !! l = Some o)
    ∧ ∃ d, h' !! y = Some (ODict d).
Proof.
  induction kvs as [|[k a] kvs IH]; intros m h d0 Hc Hkvs Hfuel Hlook; simpl.
  - exists m, h. do 4 (split; [done|]). eauto.
  - apply Forall_cons in Hkvs as [Ha Hkvs].
    destruct (Hrec a m h Hc Ha Hfuel) as (a' & m1 & h1 & -> & Hc1 & Hm1 & Hh1 & Ha' & _).
    assert (h1 !! y = Some (ODict d0)) as Hlook1 by (by eapply lookup_weaken).
    assert (copying h0 m1 (setitem y k a' h1)) as Hc2.
    { eapply (copying_update _ _ h1); [done | done | apply setitem_dom
        | by apply setitem_lookup_eq | intros; by apply setitem_lookup_ne |].
      simpl. apply map_Forall_insert_2; [done|].
      destruct Hc1 as (_ & _ & Hnew). by apply (Hnew y (ODict d0)). }
    destruct (IH m1 (setitem y k a' h1) (<[k := a']> d0) Hc2 Hkvs)
      as (m' & h' & -> & Hc' & Hm' & Hframe & Hd).
    { pose proof (memo_measure_mono h0 _ _ Hm1). lia. }
    { by apply setitem_lookup_eq. }
    exists m', h'. split; [done|]. split; [done|]. split; [by etrans|]. split; [|done].
    intros l o Hl Ho. apply Hframe; [done|]. rewrite setitem_lookup_ne by done.
    by eapply lookup_weaken.
Qed.

End CopyLoops.

(** With fuel beyond the number of objects still to copy, [deepcopy_rec]
    returns, and keeps the invariant. *)
Lemma deepcopy_rec_copies h0 : closed h0 → ∀ fuel, copies h0 fuel.
Proof.
  intros Hclosed fuel.
  induction fuel as [|fuel IH]; intros x m h Hc Hx Hfuel; [lia|].
  destruct x as [| | | | |l]; simpl;
    try (eexists _, m, h; do 4 (split; [done|]); split; [done | by intros ? ? [=]]).
  destruct (m !! l) as [y|] eqn:Hml.
  { exists (VRef y), m, h. do 4 (split; [done|]). split.
    - destruct Hc as (_ & Hmemo & _). by destruct (Hmemo _ _ Hml).
    - intros l' xs [= <-]. congruence. }
  simpl in Hx. apply elem_of_dom in Hx as Hl0. destruct Hl0 as [o Ho0].
  pose proof Hc as (Hsub & _ & _).
  rewrite (lookup_weaken _ _ _ _ Ho0 Hsub).
  pose proof (is_fresh (dom h)) as Hfresh.
  set (y := fresh (dom h)) in *.
  assert (y ∉ dom h0) as Hy0.
  { intros Hin. apply Hfresh. by apply (subseteq_dom _ _ Hsub). }
  assert (size (dom h0 ∖ dom (<[l := y]> m)) < fuel) as Hsize.
  { pose proof (memo_measure_insert h0 m l y Hx Hml). lia. }
  destruct o as [xs|d].
  - assert (copying h0 (<[l := y]> m) (<[y := OList []]> h)) as Hc1.
    { apply copying_alloc; [done | done | by apply Forall_nil]. }
    assert (Forall (val_in (dom h0)) xs) as Hxs by apply (Hclosed l _ Ho0).
    destruct (copy_items_spec h0 fuel IH y Hy0 xs _ _ [] Hc1 Hxs Hsize
                (lookup_insert_eq _ _ _))
      as (m' & h' & -> & Hc' & Hm' & Hframe & ys & Hys & Hlen).
    exists (VRef y), m', h'. split; [done|]. split; [done|]. split.
    { etrans; [|done]. by apply insert_subseteq. }
    split.
    { apply map_subseteq_spec. intros l' o' Hl'.
      assert (l' ≠ y) as Hne by (intros ->; apply Hfresh, elem_of_dom; eauto).
      apply Hframe; [done|]. by rewrite lookup_insert_ne. }
    split.
    { simpl. apply elem_of_difference. split; [|done]. apply elem_of_dom. eauto. }
    intros l' xs' [= <-] _ Hl'. simplify_eq. eauto.
  - assert (copying h0 (<[l := y]> m) (<[y := ODict ∅]> h)) as Hc1.
    { apply copying_alloc; [done | done | apply map_Forall_empty]. }
    assert (Forall (λ kv : string * val, val_in (dom h0) kv.2) (map_to_list d)) as Hkvs.
    { pose proof (Hclosed l _ Ho0) as Hd. simpl in Hd.
      apply map_Forall_to_list in Hd.
      eapply Forall_impl; [exact Hd|]. by intros [k v]. }
    destruct (copy_entries_spec h0 fuel IH y Hy0 _ _ _ ∅ Hc1 Hkvs Hsize
                (lookup_insert_eq _ _ _))
      as (m' & h' & -> & Hc' & Hm' & Hframe & d' & Hd').
    exists (VRef y), m', h'. split; [done|]. split; [done|]. split.
    { etrans; [|done]. by apply insert_subseteq. }
    split.
    { apply map_subseteq_spec. intros l' o' Hl'.
      assert (l' ≠ y) as Hne by (intros ->; apply Hfresh, elem_of_dom; eauto).
      apply Hframe; [done|]. by rewrite lookup_insert_ne. }
    split.
    { simpl. apply elem_of_difference. split; [|done]. apply elem_of_dom. eauto. }
    intros l' xs' [= <-] _ Hl'. congruence.
Qed.

(** [deepcopy] returns on every closed heap; the objects of the heap are as
    they were, the copy refers to objects created by the call only, and
    the copy of a list is a list of the same length. *)
Lemma deepcopy_total h x :
  closed h → val_in (dom h) x →
  ∃ x' h' m,
    deepcopy x h = Some (x', h')
    ∧ copying h m h' ∧ h ⊆ h'
    ∧ val_in (dom h' ∖ dom h) x'
    ∧ ∀ xs, as_list h x = Some xs →
        ∃ ys, as_list h' x' = Some ys ∧ length ys = length xs.
Proof.
  intros Hclosed Hx. unfold deepcopy.
  assert (copying h ∅ h) as Hc.
  { split; [done|]. split.
    - intros l y. by rewrite lookup_empty.
    - intros y o Hy Hny. exfalso. apply Hny, elem_of_dom. eauto. }
  destruct (deepcopy_rec_copies h Hclosed (S (size h)) x ∅ h Hc Hx)
    as (x' & m' & h' & -> & Hc' & _ & Hh' & Hx' & Hshape).
  { rewrite dom_empty_L, difference_empty_L, size_dom. lia. }
  exists x', h', m'. do 4 (split; [done|]).
  intros xs Hxs. unfold as_list in Hxs.
  destruct x as [| | | | |l]; try discriminate.
  destruct (h !! l) as [[xs'|]|] eqn:Hl; try discriminate. simplify_eq.
  destruct (Hshape l xs eq_refl (lookup_empty _) Hl) as (y & ys & -> & Hy & Hlen).
  exists ys. simpl. by rewrite Hy.
Qed.

(** *** Reachability *)

(** Within a set of locations that a heap closes over, reachability and
    contents only depend on the heap at those locations. *)
Lemma reachable_within (S : gset loc) (ha hb : heap) :
  (∀ l, l ∈ S → hb !! l = ha !! l) →
  (∀ l o, l ∈ S → ha !! l = Some o → obj_in S o) →
  ∀ v l, val_in S v → reachable hb v l → reachable ha v l ∧ l ∈ S.
Proof.
  intros Hagree Hclosed v l Hv Hreach.
  induction Hreach as [l | l o v l' Hl Hholds Hreach IH]; simpl in Hv.
  - split; [constructor | done].
  - rewrite (Hagree _ Hv) in Hl.
    destruct IH as [IH1 IH2].
    + eapply holds_val_in; [|done]. by eapply Hclosed.
    + split; [|done]. by econstructor.
Qed.

Lemma copying_created_closed h0 m h :
  copying h0 m h → ∀ l o, l ∈ dom h ∖ dom h0 → h !! l = Some o → obj_in (dom h ∖ dom h0) o.
Proof.
  intros (_ & _ & Hnew) l o [_ Hl]%elem_of_difference Ho. by eapply Hnew.
Qed.

(** *** Validation *)

Lemma for_each_Return {A} (body : A → result unit) xs :
  for_each body xs = Return tt ↔ Forall (λ x, body x = Return tt) xs.
Proof.
  induction xs as [|x xs IH]; simpl.
  - split; [by constructor | done].
  - destruct (body x) as [[]|e] eqn:Hx.
    + rewrite IH. split; [by constructor | by inv 1].
    + split; [done | inv 1; congruence].
Qed.

Lemma for_each_Raise {A} (body : A → result unit) xs e :
  for_each body xs = Raise e → ∃ x, x ∈ xs ∧ body x = Raise e.
Proof.
  induction xs as [|x xs IH]; simpl; [done|].
  destruct (body x) as [[]|e'] eqn:Hx.
  - intros (x' & Hin & Hx')%IH. exists x'. split; [by right | done].
  - intros [= ->]. exists x. split; [by left | done].
Qed.

Lemma check_augment_Return h augment :
  check_augment h augment = Return tt ↔ valid_augment h augment.
Proof.
  unfold check_augment, valid_augment.
  destruct (as_dict h augment) as [d|].
  - case_decide as Ht.
    + split; [eauto | done].
    + split; [done | intros (d' & [= <-] & Ht'); done].
  - split; [done | intros (d' & [=] & _)].
Qed.

Lemma check_policy_Return h policy :
  check_policy h policy = Return tt ↔ valid_policy h policy.
Proof.
  unfold check_policy, valid_policy.
  destruct (as_list h policy) as [augments|].
  - case_decide as Hlen.
    + rewrite for_each_Return. split.
      * intros Hall. exists augments. split; [done|]. split.
        { intros ->. simpl in Hlen. lia. }
        eapply Forall_impl; [done|]. intros a. by apply check_augment_Return.
      * intros (augments' & [= <-] & _ & Hall).
        eapply Forall_impl; [done|]. intros a. by apply check_augment_Return.
    + split; [done|]. intros (augments' & [= <-] & Hne & _).
      destruct augments; [done | simpl in Hlen; lia].
  - split; [done | intros (d' & [=] & _)].
Qed.

Lemma check_policies_Return h policies :
  check_policies h policies = Return tt ↔ valid_policies h policies.
Proof.
  unfold check_policies, valid_policies.
  destruct (as_list h policies) as [ps|].
  - case_decide as Hlen.
    + rewrite for_each_Return. split.
      * intros Hall. exists ps. split; [done|]. split.
        { intros ->. simpl in Hlen. lia. }
        eapply Forall_impl; [done|]. intros a. by apply check_policy_Return.
      * intros (ps' & [= <-] & _ & Hall).
        eapply Forall_impl; [done|]. intros a. by apply check_policy_Return.
    + split; [done|]. intros (ps' & [= <-] & Hne & _).
      destruct ps; [done | simpl in Hlen; lia].
  - split; [done | intros (d' & [=] & _)].
Qed.

(** The checks raise nothing but the three assertion errors. *)
Lemma check_augment_Raise h augment e :
  check_augment h augment = Raise e → ∃ m, e = AssertionError m.
Proof.
  unfold check_augment. destruct (as_dict h augment); [case_decide|];
    intros [= <-]; eauto.
Qed.

Lemma check_policy_Raise h policy e :
  check_policy h policy = Raise e → ∃ m, e = AssertionError m.
Proof.
  unfold check_policy. destruct (as_list h policy); [case_decide|];
    try (intros [= <-]; by eauto).
  intros (a & _ & Ha)%for_each_Raise. by eapply check_augment_Raise.
Qed.

Lemma check_policies_Raise h policies e :
  check_policies h policies = Raise e → ∃ m, e = AssertionError m.
Proof.
  unfold check_policies. destruct (as_list h policies); [case_decide|];
    try (intros [= <-]; by eauto).
  intros (a & _ & Ha)%for_each_Raise. by eapply check_policy_Raise.
Qed.

Lemma as_list_val_in h v xs : as_list h v = Some xs → val_in (dom h) v.
Proof.
  destruct v as [| | | | |l]; simpl; try done.
  destruct (h !! l) eqn:Hl; [|done]. intros _. apply elem_of_dom. eauto.
Qed.

(** *** Comprehensions *)

Lemma comprehension_ext {A B} (f g : A → result B) xs :
  (∀ x, x ∈ xs → f x = g x) → comprehension f xs = comprehension g xs.
Proof.
  induction xs as [|x xs IH]; intros Hfg; simpl; [done|].
  rewrite (Hfg x) by (by left). rewrite IH; [done|].
  intros x' Hx'. apply Hfg. by right.
Qed.

Lemma comprehension_length {A B} (f : A → result B) xs ys :
  comprehension f xs = Return ys → length ys = length xs.
Proof.
  revert ys. induction xs as [|x xs IH]; intros ys; simpl.
  - by intros [= <-].
  - destruct (f x) as [y|]; [|done].
    destruct (comprehension f xs) as [ys'|]; [|done].
    intros [= <-]. simpl. by rewrite (IH ys').
Qed.

Lemma comprehension_lookup {A B} (f : A → result B) xs ys i y :
  comprehension f xs = Return ys → ys !! i = Some y →
  ∃ x, xs !! i = Some x ∧ f x = Return y.
Proof.
  revert ys i. induction xs as [|x xs IH]; intros ys i; simpl.
  - intros [= <-]. by rewrite lookup_nil.
  - destruct (f x) as [y'|] eqn:Hx; [|done].
    destruct (comprehension f xs) as [ys'|] eqn:Hxs; [|done].
    intros [= <-]. destruct i as [|i]; simpl.
    + intros [= <-]. eauto.
    + intros Hi. by eapply IH.
Qed.

Lemma comprehension_returns {A B} (f : A → result B) xs :
  (∀ x, x ∈ xs → returns (f x)) → returns (comprehension f xs).
Proof.
  induction xs as [|x xs IH]; intros Hf; simpl; [by eexists|].
  destruct (Hf x) as [y ->]; [by left|].
  destruct IH as [ys ->]; [intros x' Hx'; apply Hf; by right|]. by eexists.
Qed.

End AutoAugmentFacts.

(** * AutoAugment: construction and invocation *)

Module AutoAugmentTheorems.
Import AutoAugment AutoAugmentFacts.

Section Construction.

Variable Pipeline : Type.
Variable Compose : val → heap → result Pipeline.

Lemma init_invalid h policies :
  ¬ valid_policies h policies →
  ∃ m, __init__ Compose policies h = Some (h, Raise (AssertionError m)).
Proof.
  intros Hinv. unfold __init__.
  destruct (check_policies h policies) as [[]|e] eqn:Hcheck.
  - by apply check_policies_Return in Hcheck.
  - apply check_policies_Raise in Hcheck as [m ->]. eauto.
Qed.

Lemma init_returns_valid h policies h' r :
  __init__ Compose policies h = Some (h', r) →
  valid_policies h policies ∨ (h' = h ∧ ∃ m, r = Raise (AssertionError m)).
Proof.
  unfold __init__.
  destruct (check_policies h policies) as [[]|e] eqn:Hcheck.
  - intros _. left. by apply check_policies_Return.
  - intros [= <- <-]. right. split; [done|].
    apply check_policies_Raise in Hcheck as [m ->]. eauto.
Qed.

Lemma init_valid h policies :
  closed h → valid_policies h policies →
  ∃ ps x' h' m ps',
    as_list h policies = Some ps
    ∧ deepcopy policies h = Some (x', h')
    ∧ copying h m h' ∧ h ⊆ h'
    ∧ val_in (dom h' ∖ dom h) x'
    ∧ as_list h' x' = Some ps' ∧ length ps' = length ps
    ∧ __init__ Compose policies h
      = Some (h', match comprehension (λ policy, Compose policy h') ps' with
                  | Return ts => Return (Instance_ x' ts)
                  | Raise e => Raise e
                  end).
Proof.
  intros Hclosed Hvalid.
  pose proof Hvalid as (ps & Hps & _ & _).
  destruct (deepcopy_total h policies Hclosed (as_list_val_in _ _ _ Hps))
    as (x' & h' & m & Hcopy & Hc & Hsub & Hx' & Hshape).
  destruct (Hshape ps Hps) as (ps' & Hps' & Hlen).
  exists ps, x', h', m, ps'. do 7 (split; [done|]).
  unfold __init__.
  apply check_policies_Return in Hvalid as ->.
  rewrite Hcopy, Hps'. by destruct (comprehension _ ps').
Qed.

(** A successful construction, taken apart. *)
Lemma init_Return h policies h' self :
  closed h →
  __init__ Compose policies h = Some (h', Return self) →
  ∃ ps m ps',
    valid_policies h policies
    ∧ as_list h policies = Some ps
    ∧ copying h m h' ∧ h ⊆ h'
    ∧ val_in (dom h' ∖ dom h) (AutoAugment.policies self)
    ∧ as_list h' (AutoAugment.policies self) = Some ps' ∧ length ps' = length ps
    ∧ comprehension (λ policy, Compose policy h') ps' = Return (transforms self).
Proof.
  intros Hclosed Hinit.
  destruct (init_returns_valid _ _ _ _ Hinit) as [Hvalid | (_ & m & [=])].
  destruct (init_valid h policies Hclosed Hvalid)
    as (ps & x' & h'' & m & ps' & Hps & _ & Hc & Hsub & Hx' & Hps' & Hlen & Heq).
  rewrite Heq in Hinit.
  destruct (comprehension _ ps') as [ts|e] eqn:Hts; simplify_eq.
  exists ps, m, ps'. by simpl.
Qed.




End Construction.

Lemma closed_heap_one_augment : closed heap_one_augment.
Proof. apply (bool_decide_unpack _). vm_compute. exact I. Qed.

Lemma closed_heap_empty_policies : closed heap_empty_policies.
Proof. apply (bool_decide_unpack _). vm_compute. exact I. Qed.

Lemma valid_heap_one_augment : valid_policies heap_one_augment (VRef 1%positive).
Proof. apply check_policies_Return. vm_compute. reflexivity. Qed.



Lemma keep_policy_reads_its_argument : reads_its_argument keep_policy.
Proof. by intros v ha hb _. Qed.


(** *** Invocation *)

Lemma total_uniform {A} (q : Q) (xs : list A) :
  Qeq (total (map (λ x, (q, x)) xs)) (Qmult (inject_Z (Z.of_nat (length xs))) q).
Proof.
  induction xs as [|x xs IH].
  - unfold total. simpl. unfold Qeq. simpl. lia.
  - change (total (map (λ x, (q, x)) (x :: xs)))
      with (Qplus q (total (map (λ x, (q, x)) xs))).
    rewrite IH. rewrite length_cons, Nat2Z.inj_succ.
    unfold Z.succ. rewrite inject_Z_plus. ring.
Qed.

Lemma total_map_outcome {A B} (f : A → B) (d : dist A) :
  total (map (λ wt, (wt.1, f wt.2)) d) = total d.
Proof.
  unfold total. f_equal. rewrite <- !list_fmap_compose. simpl.
  induction d as [|[w a] d IH]; simpl; [done|]. by f_equal.
Qed.

Lemma lookup_map {A B} (f : A → B) (xs : list A) i :
  map f xs !! i = f <$> xs !! i.
Proof.
  revert i. induction xs as [|x xs IH]; intros [|i]; simpl; try done.
Qed.

Section Invocation.

Variable Pipeline Record_ Outcome : Type.
Variable apply : Pipeline → Record_ → Outcome.

Lemma call_uniform (self : instance Pipeline) results :
  transforms self ≠ [] →
  ∃ d, __call__ apply self results = Return d
       ∧ length d = length (transforms self)
       ∧ (∀ i t, transforms self !! i = Some t →
            d !! i = Some (Qmake 1 (Pos.of_nat (length (transforms self))),
                           apply t results))
       ∧ Qeq (total d) 1.
Proof.
  intros Hne. unfold __call__, np_random_choice.
  destruct (transforms self) as [|t ts] eqn:Hts; [done|].
  set (n := length (t :: ts)).
  eexists. split; [done|]. split; [|split].
  - by rewrite !length_map.
  - intros i t' Hi. unfold dist. rewrite !lookup_map, Hi. done.
  - rewrite (total_map_outcome (λ t, apply t results)), total_uniform. fold n.
    unfold Qeq, Qmult, inject_Z. simpl Qnum. simpl Qden.
    assert (n ≠ 0) by (unfold n; simpl; lia).
    rewrite Z.mul_1_r, Z.mul_1_r, Z.mul_1_l, Pos.mul_1_l.
    rewrite <- positive_nat_Z, Nat2Pos.id by done. done.
Qed.

End Invocation.

Section Invocation_of_constructed.

Variable Pipeline Record_ Outcome : Type.
Variable Compose : val → heap → result Pipeline.
Variable apply : Pipeline → Record_ → Outcome.


End Invocation_of_constructed.


End AutoAugmentTheorems.

(** * Further properties of the registry and of the builders *)

Module RegistryTheorems.
Import Registry RegistryFacts.

(** A registration that returns found a registry, did not find the name in
    the category, and stored the class there. *)
Lemma _register_module_Return p self cls m p' :
  _register_module self cls m p = (p', Return tt) →
  ∃ c d md,
    cls = VClass c
    ∧ objects p !! self = Some (Instance (Some d))
    ∧ objects p !! d = Some (Dict md)
    ∧ ¬ registered md m (cls_name c)
    ∧ p' = Process (_instance p)
             (<[d := Dict (<[m := <[cls_name c := VClass c]> (default ∅ (md !! m))]> md)]>
                (objects p)).
Proof.
  intros H. destruct (is_class cls) eqn:Hcls.
  - destruct cls as [| | | |c| | | |]; try discriminate.
    destruct (self_module_dict self p) as [q r] eqn:E.
    pose proof E as [-> HE]%self_module_dict_inv.
    destruct r as [[d md]|e0].
    + destruct (HE _ _ eq_refl) as [Hs Hd].
      rewrite (_register_module_class _ _ _ _ _ _ Hs Hd) in H.
      case_decide; simplify_eq. by exists c, d, md.
    + unfold _register_module, bind in H. rewrite E in H. by simplify_eq.
  - rewrite _register_module_not_class in H by done. by simplify_eq.
Qed.

Lemma registry_after_store p self d md md' :
  objects p !! self = Some (Instance (Some d)) →
  objects p !! d = Some (Dict md) →
  let p' := Process (_instance p) (<[d := Dict md']> (objects p)) in
  objects p' !! self = Some (Instance (Some d)) ∧ objects p' !! d = Some (Dict md').
Proof.
  intros Hs Hd. simpl.
  assert (self ≠ d) by (intros ->; congruence).
  by rewrite lookup_insert_ne, lookup_insert_eq.
Qed.

Lemma get_Return p self name m p' v :
  get self name m p = (p', Return v) →
  p' = p ∧ ∃ md dd, module_dict_of p self = Some md ∧ md !! m = Some dd ∧ dd !! name = Some v.
Proof.
  intros H. unfold get, bind in H.
  destruct (self_module_dict self p) as [q r] eqn:E.
  pose proof E as [-> HE]%self_module_dict_inv.
  destruct r as [[d md]|e0]; [|done].
  destruct (HE _ _ eq_refl) as [Hs Hd]. simpl in H.
  destruct (md !! m) as [dd|] eqn:Hm; [|done].
  destruct (dd !! name) as [w|] eqn:Hname; [|done].
  unfold ret in H. simplify_eq. split; [done|].
  exists md, dd. split; [|done]. apply module_dict_of_Some. eauto.
Qed.

(** X5. A class that has been registered is found: after a registration
    that returned, [get] with the class's name and the category returns
    the class; every lookup that succeeded before still returns the same
    value; and no other name or category has become visible. *)
Theorem registered_class_is_found p self c m p' :
  _register_module self (VClass c) m p = (p', Return tt) →
  get self (cls_name c) m p' = (p', Return (VClass c))
  ∧ (∀ name m' v, get self name m' p = (p, Return v) →
       get self name m' p' = (p', Return v))
  ∧ (∀ name m' v, (m', name) ≠ (m, cls_name c) →
       get self name m' p' = (p', Return v) → get self name m' p = (p, Return v)).
Proof.
  intros Hreg.
  apply _register_module_Return in Hreg as (c' & d & md & [= <-] & Hs & Hd & Hnew & ->).
  set (md' := <[m := <[cls_name c := VClass c]> (default ∅ (md !! m))]> md).
  destruct (registry_after_store p self d md md' Hs Hd) as [Hs' Hd'].
  split; [|split].
  - rewrite (get_spec _ _ _ _ _ _ Hs' Hd'). unfold md'.
    by rewrite !lookup_insert_eq.
  - intros name m' v Hget.
    rewrite (get_spec _ _ _ _ _ _ Hs Hd) in Hget.
    rewrite (get_spec _ _ _ _ _ _ Hs' Hd'). unfold md'.
    destruct (md !! m') as [dd|] eqn:Hm'; [|done].
    destruct (dd !! name) as [w|] eqn:Hname; [|done]. simplify_eq.
    destruct (decide (m = m')) as [->|Hne].
    + rewrite lookup_insert_eq, Hm'. simpl.
      destruct (decide (cls_name c = name)) as [<-|Hne'].
      * exfalso. apply Hnew, registered_iff. eauto.
      * by rewrite lookup_insert_ne, Hname.
    + by rewrite lookup_insert_ne, Hm', Hname.
  - intros name m' v Hneq Hget.
    rewrite (get_spec _ _ _ _ _ _ Hs' Hd') in Hget.
    rewrite (get_spec _ _ _ _ _ _ Hs Hd). unfold md' in Hget.
    destruct (decide (m = m')) as [->|Hne].
    + rewrite lookup_insert_eq in Hget.
      assert (cls_name c ≠ name) as Hne' by (intros <-; done).
      rewrite lookup_insert_ne in Hget by done.
      destruct (md !! m') as [dd|]; simpl in Hget.
      * destruct (dd !! name); by simplify_eq.
      * by rewrite lookup_empty in Hget.
    + rewrite lookup_insert_ne in Hget by done.
      destruct (md !! m') as [dd|]; [|done].
      destruct (dd !! name); by simplify_eq.
Qed.

Lemma registered_class_is_found_witness :
  ∃ p', _register_module 1%positive (VClass Foo) "dataset" process_with_Foo = (p', Return tt)
        ∧ get 1%positive "Foo" "dataset" p' = (p', Return (VClass Foo))
        ∧ get 1%positive "Foo" "cat" p' = (p', Return (VClass Foo)).
Proof.
  eexists. split; [vm_compute; reflexivity|].
  destruct (registered_class_is_found process_with_Foo 1%positive Foo "dataset" _ eq_refl)
    as (Hfound & Hkept & _).
  split; [exact Hfound|]. apply Hkept. vm_compute. reflexivity.
Defined.

(** X6. Lookup.  [get] never changes the process.  Through a registry
    whose module_dict is [md], it returns the value registered under the
    category and the name; it raises the KeyError "is not in registry"
    when the category is missing, and the KeyError "is not registered in"
    when the category exists without the name. *)
Theorem get_finds_or_raises p self md name m :
  module_dict_of p self = Some md →
  (∀ dd v, md !! m = Some dd → dd !! name = Some v →
     get self name m p = (p, Return v))
  ∧ (md !! m = None →
     get self name m p = (p, Raise (KeyError (is_not_in_registry m))))
  ∧ (∀ dd, md !! m = Some dd → dd !! name = None →
     get self name m p = (p, Raise (KeyError (is_not_registered_in name m))))
  ∧ (∀ p' r, get self name m p = (p', r) → p' = p).
Proof.
  intros Hmd. apply module_dict_of_Some in Hmd as (d & Hs & Hd).
  rewrite (get_spec _ _ _ _ _ _ Hs Hd). split; [|split; [|split]].
  - by intros dd v -> ->.
  - by intros ->.
  - by intros dd -> ->.
  - intros p' r. destruct (md !! m) as [dd|]; [destruct (dd !! name)|];
      by intros [= <- _].
Qed.

Lemma get_finds_or_raises_witness :
  get 1%positive "Foo" "cat" process_with_Foo = (process_with_Foo, Return (VClass Foo))
  ∧ get 1%positive "Foo" "dataset" process_with_Foo
    = (process_with_Foo, Raise (KeyError (is_not_in_registry "dataset")))
  ∧ get 1%positive "Bar" "cat" process_with_Foo
    = (process_with_Foo, Raise (KeyError (is_not_registered_in "Bar" "cat"))).
Proof.
  split; [|split].
  - eapply (proj1 (get_finds_or_raises process_with_Foo 1%positive _ "Foo" "cat" eq_refl));
      reflexivity.
  - apply (proj1 (proj2 (get_finds_or_raises process_with_Foo 1%positive _
                           "Foo" "dataset" eq_refl))).
    reflexivity.
  - eapply (proj1 (proj2 (proj2 (get_finds_or_raises process_with_Foo 1%positive _
                                   "Bar" "cat" eq_refl))));
      reflexivity.
Defined.

(** X7. Only classes are stored.  If every value in the registry is a
    class, this is still so after any call of [_register_module], whether
    it returned or raised. *)
Theorem registration_keeps_only_classes p self md cls m p' r :
  module_dict_of p self = Some md →
  only_classes md →
  _register_module self cls m p = (p', r) →
  ∃ md', module_dict_of p' self = Some md' ∧ only_classes md'.
Proof.
  intros Hmd Hall Hreg.
  pose proof Hmd as (d & Hs & Hd)%module_dict_of_Some.
  destruct (is_class cls) eqn:Hcls.
  - destruct cls as [| | | |c| | | |]; try discriminate.
    rewrite (_register_module_class _ _ _ _ _ _ Hs Hd) in Hreg.
    case_decide; simplify_eq; [by exists md|].
    eexists. split.
    + apply module_dict_of_Some. exists d.
      by apply (registry_after_store p self d md).
    + apply map_Forall_insert_2; [|done].
      apply map_Forall_insert_2; [done|].
      destruct (md !! m) as [dd|] eqn:Hm; simpl.
      * by apply (Hall m dd).
      * apply map_Forall_empty.
  - rewrite _register_module_not_class in Hreg by done. simplify_eq. by exists md.
Qed.

Lemma registration_keeps_only_classes_witness :
  ∃ md', module_dict_of
           (_register_module 1%positive (VClass Foo') "dataset" process_with_Foo).1
           1%positive = Some md'
         ∧ only_classes md'.
Proof.
  apply (registration_keeps_only_classes process_with_Foo 1%positive
           {[ "cat" := {[ "Foo" := VClass Foo ]} ]} (VClass Foo') "dataset" _
           (_register_module 1%positive (VClass Foo') "dataset" process_with_Foo).2).
  - reflexivity.
  - intros k dd [<- <-]%lookup_singleton_Some.
    by intros k' v [<- <-]%lookup_singleton_Some.
  - by destruct (_register_module _ _ _ _).
Defined.

(** X8. On a registry that holds only classes, the membership test never
    answers [False]: it returns [True], and does so exactly when the key
    is registered under the category 'module'; for any other key it
    raises the KeyError of [get]. *)
Theorem contains_is_True_or_raises p self md key :
  module_dict_of p self = Some md →
  only_classes md →
  (registered md "module" key → __contains__ self key p = (p, Return true))
  ∧ (¬ registered md "module" key →
     ∃ msg, __contains__ self key p = (p, Raise (KeyError msg)))
  ∧ (∀ p' b, __contains__ self key p = (p', Return b) → b = true).
Proof.
  intros Hmd Hall.
  pose proof Hmd as (d & Hs & Hd)%module_dict_of_Some.
  assert (∀ dd v, md !! "module" = Some dd → dd !! key = Some v → is_None v = false)
    as Hclass.
  { intros dd v Hdd Hv. pose proof (Hall _ _ Hdd _ _ Hv) as Hc. by destruct v. }
  unfold __contains__, bind. rewrite (get_spec _ _ _ _ _ _ Hs Hd).
  split; [|split].
  - intros (dd & v & Hdd & Hv)%registered_iff. rewrite Hdd, Hv.
    unfold ret. by rewrite (Hclass dd v).
  - intros Hnot. destruct (md !! "module") as [dd|] eqn:Hdd; [|by eexists].
    destruct (dd !! key) as [v|] eqn:Hv; [|by eexists].
    exfalso. apply Hnot, registered_iff. eauto.
  - intros p' b. destruct (md !! "module") as [dd|] eqn:Hdd; [|done].
    destruct (dd !! key) as [v|] eqn:Hv; [|done].
    unfold ret. rewrite (Hclass dd v) by done. by intros [= _ <-].
Qed.

Lemma contains_is_True_or_raises_witness :
  let p := (_register_module 1%positive (VClass Foo) "module" process_with_Foo).1 in
  __contains__ 1%positive "Foo" p = (p, Return true)
  ∧ ∃ msg, __contains__ 1%positive "Bar" p = (p, Raise (KeyError msg)).
Proof.
  set (md := <["module" := {[ "Foo" := VClass Foo ]}]>
               ({[ "cat" := {[ "Foo" := VClass Foo ]} ]} : module_dict)).
  assert (only_classes md) as Hall.
  { unfold only_classes. apply (bool_decide_unpack _). vm_compute. exact I. }
  intros p. split.
  - apply (proj1 (contains_is_True_or_raises p 1%positive md "Foo" eq_refl Hall)).
    vm_compute. eauto.
  - apply (proj1 (proj2 (contains_is_True_or_raises p 1%positive md "Bar" eq_refl Hall))).
    vm_compute. by intros [? [=]].
Defined.

Lemma _register_module_Raise p self cls m p' e :
  _register_module self cls m p = (p', Raise e) → p' = p.
Proof.
  intros H. destruct (is_class cls) eqn:Hcls.
  - destruct cls as [| | | |c| | | |]; try discriminate.
    destruct (self_module_dict self p) as [q r] eqn:E.
    pose proof E as [-> HE]%self_module_dict_inv.
    destruct r as [[d md]|e0].
    + destruct (HE _ _ eq_refl) as [Hs Hd].
      rewrite (_register_module_class _ _ _ _ _ _ Hs Hd) in H.
      case_decide; by simplify_eq.
    + unfold _register_module, bind in H. rewrite E in H. by simplify_eq.
  - rewrite _register_module_not_class in H by done. by simplify_eq.
Qed.

Lemma get_after_register p self c m p' :
  _register_module self (VClass c) m p = (p', Return tt) →
  get self (cls_name c) m p' = (p', Return (VClass c)).
Proof.
  intros Hreg.
  apply _register_module_Return in Hreg as (c' & d & md & [= <-] & Hs & Hd & _ & ->).
  destruct (registry_after_store p self d md
              (<[m := <[cls_name c := VClass c]> (default ∅ (md !! m))]> md) Hs Hd)
    as [Hs' Hd'].
  rewrite (get_spec _ _ _ _ _ _ Hs' Hd'). by rewrite !lookup_insert_eq.
Qed.

(** X9. The decorator.  When [register_module(module_name)] applied to a
    value returns, it returns that very value, the value is a class, and
    [get] finds it under its name in the category; when it raises, it
    raises what [_register_module] raises and the process is as it
    was. *)
Theorem decorator_registers_and_returns_the_class p self cls m p' r :
  register_module self m cls p = (p', r) →
  (∀ v, r = Return v →
     v = cls ∧ ∃ c, cls = VClass c ∧ get self (cls_name c) m p' = (p', Return cls))
  ∧ (∀ e, r = Raise e →
     p' = p ∧ _register_module self cls m p = (p, Raise e)).
Proof.
  unfold register_module, bind.
  destruct (_register_module self cls m p) as [q [[]|e]] eqn:Hreg;
    unfold ret; intros [= <- <-]; split; try (intros ? [=]; fail).
  - intros v [= <-]. split; [done|].
    pose proof Hreg as Hinv. apply _register_module_Return in Hinv as (c & _ & _ & -> & _).
    exists c. split; [done|]. by eapply get_after_register.
  - intros e' [= <-]. by rewrite (_register_module_Raise _ _ _ _ _ _ Hreg) in *.
Qed.

Lemma decorator_registers_and_returns_the_class_witness :
  ∃ p', register_module 1%positive "dataset" (VClass Foo') process_with_Foo
        = (p', Return (VClass Foo'))
        ∧ get 1%positive "Foo" "dataset" p' = (p', Return (VClass Foo')).
Proof.
  destruct (register_module 1%positive "dataset" (VClass Foo') process_with_Foo)
    as [p' r] eqn:Hdec.
  destruct (decorator_registers_and_returns_the_class _ _ _ _ _ _ Hdec) as [Hret _].
  vm_compute in Hdec. injection Hdec as <- <-.
  destruct (Hret _ eq_refl) as (_ & c & [= <-] & Hget).
  eexists. split; [reflexivity | exact Hget].
Defined.

(** X10. The singleton.  In a well-formed process, [Registry()] always
    returns: the reference is the recorded instance when there is one and
    is recorded otherwise, so the next [Registry()] returns it again; the
    instance is left with an empty module_dict; and every other object of
    the store, the dict that was the module_dict before among them, is as
    it was. *)
Theorem Registry_returns_the_instance_emptied p :
  well_formed p →
  ∃ p' r,
    Registry p = (p', Return r)
    ∧ _instance p' = Some r
    ∧ (∀ l, _instance p = Some l → r = l)
    ∧ module_dict_of p' r = Some ∅
    ∧ (∀ l o, l ≠ r → objects p !! l = Some o → objects p' !! l = Some o)
    ∧ well_formed p'
    ∧ ∃ p'', Registry p' = (p'', Return r).
Proof.
  intros Hwf.
  destruct (Registry_returns p) as (p' & r & HR & Hinst & Hsame).
  pose proof (Registry_resets p p' r Hwf HR) as Hempty.
  assert (well_formed p') as Hwf'.
  { intros l. rewrite Hinst. intros [= <-].
    apply module_dict_of_Some in Hempty as (d & Hr & _).
    apply elem_of_dom. eauto. }
  exists p', r. do 4 (split; [done|]). split; [|split; [done|]].
  - intros l o Hne Hl. revert HR.
    unfold Registry, __init__, __new__, bind, alloc, store, ret.
    destruct (_instance p) as [l0|] eqn:Hi; simpl; intros [= <- <-]; simpl.
    + rewrite lookup_insert_ne by done. rewrite lookup_insert_ne; [done|].
      intros <-. apply (is_fresh (dom (objects p))), elem_of_dom. eauto.
    + rewrite lookup_insert_ne by done.
      assert (objects p !! fresh (dom (objects p)) = None) as Hf
        by apply not_elem_of_dom, is_fresh.
      rewrite lookup_insert_ne.
      * rewrite lookup_insert_ne; [done|]. intros <-. congruence.
      * intros <-.
        apply (is_fresh (dom (<[fresh (dom (objects p)) := Instance None]> (objects p)))).
        apply elem_of_dom. rewrite lookup_insert_ne; [eauto|]. intros Heq.
        rewrite Heq in Hf. congruence.
  - destruct (Registry_returns p') as (p'' & r' & HR' & _ & Hsame').
    rewrite (Hsame' r Hinst) in HR'. eauto.
Qed.

Lemma Registry_returns_the_instance_emptied_witness :
  ∃ p' r,
    Registry process_with_Foo = (p', Return r)
    ∧ r = 1%positive
    ∧ module_dict_of p' r = Some ∅
    ∧ objects p' !! 2%positive = Some (Dict {[ "cat" := {[ "Foo" := VClass Foo ]} ]}).
Proof.
  destruct (Registry_returns_the_instance_emptied process_with_Foo)
    as (p' & r & HR & _ & Hsame & Hempty & Hkept & _).
  { intros l [= <-]. apply elem_of_dom. by eexists. }
  exists p', r. split; [done|].
  assert (r = 1%positive) as -> by (apply Hsame; reflexivity).
  split; [done|]. split; [done|]. apply Hkept; [done | reflexivity].
Defined.

End RegistryTheorems.

Module BuilderTheorems.
Import Registry RegistryFacts BuilderFacts.

(** X11. Filling in the defaults never overrides: the arguments are kept
    as they are, the keys afterwards are the keys of the arguments and of
    the defaults, each key that the arguments lack gets its default, and
    filling in the same defaults a second time changes nothing. *)
Theorem defaults_fill_gaps_only (default_args args : gmap string pyval) :
  args ⊆ fill_defaults default_args args
  ∧ dom (fill_defaults default_args args) = dom args ∪ dom default_args
  ∧ (∀ k, args !! k = None → fill_defaults default_args args !! k = default_args !! k)
  ∧ fill_defaults default_args (fill_defaults default_args args)
    = fill_defaults default_args args.
Proof.
  rewrite !fill_defaults_union. split; [|split; [|split]].
  - apply map_union_subseteq_l.
  - apply dom_union_L.
  - intros k Hk. by rewrite lookup_union_r.
  - apply map_eq. intros k. rewrite !lookup_union.
    by destruct (args !! k), (default_args !! k).
Qed.

Section Builder.

Variable construct : pyclass → gmap string pyval → M pyval.

(** [build_from_module] past its first two checks. *)
Lemma build_from_module_dict p cfg d module default_args :
  dict_items p cfg = Some d →
  is_Some (d !! "typename") →
  build_from_module construct cfg module default_args p =
    if negb (bool_decide (is_Some (dict_items p default_args)) || is_None default_args)
    then (p, Raise (TypeError default_args_must_be_a_dict_or_None))
    else
      match is_str (default VNone (d !! "typename")) with
      | None => (p, Raise (TypeError type_must_be_a_str))
      | Some name =>
          match getattr module name p with
          | (p', Return obj_cls) =>
              call construct obj_cls
                match dict_items p default_args with
                | Some defaults => fill_defaults defaults (delete "typename" d)
                | None => delete "typename" d
                end p'
          | (p', Raise e) => (p', Raise e)
          end
      end.
Proof.
  intros Hd [t Ht]. unfold build_from_module, bind, as_dict. rewrite Hd.
  rewrite decide_False by congruence.
  destruct (negb _); [done|].
  unfold pop. rewrite Ht. simpl.
  destruct (is_str t); [|done]. done.
Qed.

(** X12. [build_from_module] agrees with [build_from_cfg]: when the
    attributes of the module are the entries of the registry's category,
    and the typename, if [cfg] has a string there, names one of them, the
    two builders give the same result, exception or instance. *)
Theorem build_from_module_agrees_with_build_from_cfg
    p cfg registry self md m dd default_args :
  registry_instance p registry = Some self →
  module_dict_of p self = Some md →
  md !! m = Some dd →
  (∀ d name, dict_items p cfg = Some d → d !! "typename" = Some (VStr name) →
     is_Some (dd !! name)) →
  build_from_module construct cfg dd default_args p
  = build_from_cfg construct cfg registry m default_args p.
Proof.
  intros Hreg Hmd Hm Hknown.
  apply module_dict_of_Some in Hmd as (l & Hs & Hl).
  destruct (dict_items p cfg) as [d|] eqn:Hd.
  - destruct (d !! "typename") as [t|] eqn:Ht.
    + rewrite (build_from_module_dict _ _ d), (build_from_cfg_dict _ _ _ d)
        by (done || eauto).
      rewrite Hreg, Ht. simpl.
      destruct (negb _); [done|].
      destruct t as [| | |name| | | | |]; try done. simpl.
      destruct (Hknown d name eq_refl Ht) as [v Hv].
      rewrite (get_spec _ _ _ _ _ _ Hs Hl), Hm, Hv.
      unfold getattr. by rewrite Hv.
    + unfold build_from_module, build_from_cfg, bind, as_dict. rewrite Hd.
      by rewrite !decide_True.
  - unfold build_from_module, build_from_cfg, bind, as_dict. by rewrite Hd.
Qed.

(** X13. [build_from_module] fails before any class is called, leaving the
    process as it was: TypeError when [cfg] is not a dict, KeyError when
    it lacks 'typename', TypeError when [default_args] is neither None nor
    a dict, TypeError when the typename is not a string, AttributeError
    when the module has no attribute of that name. *)
Theorem build_from_module_rejects_invalid_input p cfg module default_args :
  (dict_items p cfg = None →
     build_from_module construct cfg module default_args p
     = (p, Raise (TypeError cfg_must_be_a_dict)))
  ∧ (∀ d, dict_items p cfg = Some d → d !! "typename" = None →
     build_from_module construct cfg module default_args p
     = (p, Raise (KeyError cfg_must_contain_the_key_typename)))
  ∧ (∀ d, dict_items p cfg = Some d → is_Some (d !! "typename") →
     default_args ≠ VNone → dict_items p default_args = None →
     build_from_module construct cfg module default_args p
     = (p, Raise (TypeError default_args_must_be_a_dict_or_None)))
  ∧ (∀ d t, dict_items p cfg = Some d → d !! "typename" = Some t →
     default_args = VNone ∨ is_Some (dict_items p default_args) →
     is_str t = None →
     build_from_module construct cfg module default_args p
     = (p, Raise (TypeError type_must_be_a_str)))
  ∧ (∀ d name, dict_items p cfg = Some d → d !! "typename" = Some (VStr name) →
     default_args = VNone ∨ is_Some (dict_items p default_args) →
     module !! name = None →
     build_from_module construct cfg module default_args p
     = (p, Raise (AttributeError (has_no_attribute name)))).
Proof.
  assert (∀ v, v = VNone ∨ is_Some (dict_items p v) →
            negb (bool_decide (is_Some (dict_items p v)) || is_None v) = false) as Hok.
  { intros v [-> | Hv]; [done|]. by rewrite bool_decide_eq_true_2. }
  split; [|split; [|split; [|split]]].
  - intros Hd. unfold build_from_module, bind, as_dict. by rewrite Hd.
  - intros d Hd Ht. unfold build_from_module, bind, as_dict. rewrite Hd.
    by rewrite decide_True.
  - intros d Hd Ht Hnone Hdef.
    rewrite (build_from_module_dict _ _ d) by done. rewrite Hdef.
    rewrite bool_decide_eq_false_2 by (by intros [? [=]]).
    by destruct default_args.
  - intros d t Hd Ht Hdef Hstr.
    rewrite (build_from_module_dict _ _ d) by eauto.
    rewrite (Hok _ Hdef), Ht. simpl. by rewrite Hstr.
  - intros d name Hd Ht Hdef Hname.
    rewrite (build_from_module_dict _ _ d) by eauto.
    rewrite (Hok _ Hdef), Ht. simpl. unfold getattr. by rewrite Hname.
Qed.

(** X14. An unknown type.  When the typename of [cfg] is a string that is
    not registered under the category, [build_from_cfg] raises the
    KeyError of [get] ("is not in registry" for a missing category, "is
    not registered in" for a missing name), calls no constructor and
    leaves the process as it was. *)
Theorem build_from_cfg_unknown_type p cfg d registry self md m name default_args :
  dict_items p cfg = Some d →
  d !! "typename" = Some (VStr name) →
  registry_instance p registry = Some self →
  module_dict_of p self = Some md →
  default_args = VNone ∨ is_Some (dict_items p default_args) →
  ¬ registered md m name →
  build_from_cfg construct cfg registry m default_args p
  = (p, Raise (KeyError match md !! m with
                         | Some _ => is_not_registered_in name m
                         | None => is_not_in_registry m
                         end)).
Proof.
  intros Hd Ht Hreg Hmd Hdef Hnot.
  apply module_dict_of_Some in Hmd as (l & Hs & Hl).
  rewrite (build_from_cfg_dict _ _ _ d) by eauto.
  rewrite Hreg, Ht. simpl.
  replace (negb _) with false
    by (destruct Hdef as [-> | Hv]; [done | by rewrite bool_decide_eq_true_2]).
  rewrite (get_spec _ _ _ _ _ _ Hs Hl).
  destruct (md !! m) as [dd|] eqn:Hm; [|done].
  destruct (dd !! name) as [v|] eqn:Hv; [|done].
  exfalso. apply Hnot, registered_iff. eauto.
Qed.

(** X15. The builder has no effect of its own: either it raises with the
    process as it was, or its result is the result of one call of the
    constructor of a registered class, started in the process as it
    was. *)
Theorem build_from_cfg_has_no_effect_of_its_own p cfg registry m default_args :
  (∃ e, build_from_cfg construct cfg registry m default_args p = (p, Raise e))
  ∨ (∃ self md dd name c kwargs,
       registry_instance p registry = Some self
       ∧ module_dict_of p self = Some md
       ∧ md !! m = Some dd ∧ dd !! name = Some (VClass c)
       ∧ build_from_cfg construct cfg registry m default_args p = construct c kwargs p).
Proof.
  unfold build_from_cfg, bind, as_dict, as_Registry.
  destruct (dict_items p cfg) as [d|]; [|left; by eexists].
  case_decide as Ht; [left; by eexists|].
  destruct (registry_instance p registry) as [self|] eqn:Hreg; [|left; by eexists].
  destruct (negb _); [left; by eexists|].
  unfold pop. destruct (d !! "typename") as [t|]; [|done]. simpl.
  destruct (is_str t) as [name|]; [|left; by eexists].
  unfold get, bind.
  destruct (self_module_dict self p) as [q r] eqn:E.
  pose proof E as [-> HE]%self_module_dict_inv.
  destruct r as [[l md]|e0]; [|left; by eexists].
  destruct (HE _ _ eq_refl) as [Hs Hl]. simpl.
  destruct (md !! m) as [dd|] eqn:Hm; [|left; by eexists].
  destruct (dd !! name) as [v|] eqn:Hv; [|left; by eexists].
  unfold ret.
  destruct v as [| | | |c| | | |]; try (left; by eexists).
  right. exists self, md, dd, name, c. eexists.
  split; [done|]. split; [apply module_dict_of_Some; eauto|]. done.
Qed.

End Builder.

Lemma build_from_module_agrees_with_build_from_cfg_witness :
  build_from_module recording (VDict {[ "typename" := VStr "Foo" ]})
    {[ "Foo" := VClass Foo ]} VNone process_with_Foo
  = build_from_cfg recording (VDict {[ "typename" := VStr "Foo" ]}) (VObject 1%positive)
      "cat" VNone process_with_Foo.
Proof.
  apply (build_from_module_agrees_with_build_from_cfg recording process_with_Foo
           (VDict {[ "typename" := VStr "Foo" ]}) (VObject 1%positive) 1%positive
           {[ "cat" := {[ "Foo" := VClass Foo ]} ]} "cat" {[ "Foo" := VClass Foo ]} VNone).
  - reflexivity.
  - reflexivity.
  - reflexivity.
  - intros d name Hd Ht. injection Hd as <-. vm_compute in Ht.
    injection Ht as <-. vm_compute. eauto.
Defined.

Lemma build_from_module_rejects_invalid_input_witness :
  build_from_module recording (VInt 3) ∅ VNone process0
  = (process0, Raise (TypeError cfg_must_be_a_dict))
  ∧ build_from_module recording (VDict {[ "a" := VInt 1 ]}) ∅ VNone process0
    = (process0, Raise (KeyError cfg_must_contain_the_key_typename))
  ∧ build_from_module recording (VDict {[ "typename" := VStr "Foo" ]}) ∅ (VInt 0) process0
    = (process0, Raise (TypeError default_args_must_be_a_dict_or_None))
  ∧ build_from_module recording (VDict {[ "typename" := VInt 7 ]}) ∅ VNone process0
    = (process0, Raise (TypeError type_must_be_a_str))
  ∧ build_from_module recording (VDict {[ "typename" := VStr "Foo" ]}) ∅ VNone process0
    = (process0, Raise (AttributeError (has_no_attribute "Foo"))).
Proof.
  split; [|split; [|split; [|split]]].
  - apply (proj1 (build_from_module_rejects_invalid_input recording process0 (VInt 3)
                    ∅ VNone)).
    reflexivity.
  - eapply (proj1 (proj2 (build_from_module_rejects_invalid_input recording process0
                            (VDict {[ "a" := VInt 1 ]}) ∅ VNone)));
      reflexivity.
  - eapply (proj1 (proj2 (proj2 (build_from_module_rejects_invalid_input recording process0
                            (VDict {[ "typename" := VStr "Foo" ]}) ∅ (VInt 0)))));
      [reflexivity | vm_compute; eauto | discriminate | reflexivity].
  - eapply (proj1 (proj2 (proj2 (proj2 (build_from_module_rejects_invalid_input recording
                            process0 (VDict {[ "typename" := VInt 7 ]}) ∅ VNone)))));
      [reflexivity | reflexivity | by left | reflexivity].
  - eapply (proj2 (proj2 (proj2 (proj2 (build_from_module_rejects_invalid_input recording
                            process0 (VDict {[ "typename" := VStr "Foo" ]}) ∅ VNone)))));
      [reflexivity | reflexivity | by left | reflexivity].
Defined.

Lemma build_from_cfg_unknown_type_witness :
  build_from_cfg recording (VDict {[ "typename" := VStr "Bar" ]}) (VObject 1%positive)
    "cat" VNone process_with_Foo
  = (process_with_Foo, Raise (KeyError (is_not_registered_in "Bar" "cat")))
  ∧ build_from_cfg recording (VDict {[ "typename" := VStr "Foo" ]}) (VObject 1%positive)
      "dog" VNone process_with_Foo
    = (process_with_Foo, Raise (KeyError (is_not_in_registry "dog"))).
Proof.
  split.
  - etrans.
    + apply (build_from_cfg_unknown_type recording process_with_Foo
               (VDict {[ "typename" := VStr "Bar" ]}) {[ "typename" := VStr "Bar" ]}
               (VObject 1%positive) 1%positive {[ "cat" := {[ "Foo" := VClass Foo ]} ]}
               "cat" "Bar" VNone);
        [reflexivity | reflexivity | reflexivity | reflexivity | by left |].
      intros H. apply registered_iff in H as (dd & v & Hdd & Hv).
      vm_compute in Hdd. injection Hdd as <-. vm_compute in Hv. discriminate.
    + vm_compute. reflexivity.
  - etrans.
    + apply (build_from_cfg_unknown_type recording process_with_Foo
               (VDict {[ "typename" := VStr "Foo" ]}) {[ "typename" := VStr "Foo" ]}
               (VObject 1%positive) 1%positive {[ "cat" := {[ "Foo" := VClass Foo ]} ]}
               "dog" "Foo" VNone);
        [reflexivity | reflexivity | reflexivity | reflexivity | by left |].
      intros H. apply registered_iff in H as (dd & v & Hdd & Hv).
      vm_compute in Hdd. discriminate.
    + vm_compute. reflexivity.
Defined.

End BuilderTheorems.

(** * Failures of the construction of AutoAugment *)

Module AutoAugmentFailures.
Import AutoAugment AutoAugmentFacts.

(** A loop raises what its body raises on the first item it fails on. *)
Lemma for_each_first_failure {A} (body : A → result unit) xs i x e :
  xs !! i = Some x →
  (∀ j y, j < i → xs !! j = Some y → body y = Return tt) →
  body x = Raise e →
  for_each body xs = Raise e.
Proof.
  revert i. induction xs as [|x' xs IH]; intros i Hi Hbefore Hx; [done|].
  destruct i as [|i]; simpl in *.
  - injection Hi as ->. by rewrite Hx.
  - rewrite (Hbefore 0 x') by (done || lia).
    apply (IH i); [done| |done].
    intros j y Hj Hy. apply (Hbefore (S j)); [lia|done].
Qed.

Lemma comprehension_Raise {A B} (f : A → result B) xs e :
  comprehension f xs = Raise e → ∃ x, x ∈ xs ∧ f x = Raise e.
Proof.
  induction xs as [|x xs IH]; simpl; [done|].
  destruct (f x) as [y|e'] eqn:Hx.
  - destruct (comprehension f xs) as [ys|e'']; [done|].
    intros [= ->]. destruct IH as (x' & Hin & Hx'); [done|].
    exists x'. split; [by right | done].
  - intros [= ->]. exists x. split; [by left | done].
Qed.

Lemma check_augment_cases h augment :
  check_augment h augment = Return tt
  ∨ check_augment h augment
    = Raise (AssertionError each_augmentation_must_be_a_dict_with_key_type).
Proof.
  unfold check_augment. destruct (as_dict h augment); [case_decide|]; auto.
Qed.

(** The assertion on which an ill-formed policy fails. *)
Lemma check_policy_invalid h policy :
  ¬ valid_policy h policy →
  check_policy h policy
  = Raise (AssertionError
             match as_list h policy with
             | Some (_ :: _) => each_augmentation_must_be_a_dict_with_key_type
             | _ => each_policy_must_be_a_non_empty_list
             end).
Proof.
  intros Hinv.
  destruct (check_policy h policy) as [[]|e] eqn:Hcheck;
    [by apply check_policy_Return in Hcheck|].
  revert Hcheck. unfold check_policy.
  destruct (as_list h policy) as [[|a augments]|]; [done| |done].
  rewrite decide_True by (simpl; lia).
  intros (a' & _ & Ha')%for_each_Raise.
  destruct (check_augment_cases h a') as [Hr|Hr]; congruence.
Qed.

Section Construction.

Variable Pipeline : Type.
Variable Compose : val → heap → result Pipeline.

(** X16. Which assertion fails.  The checks run in the order of the
    loops: when [policies] is not a non-empty list the construction fails
    with 'Policies must be a non-empty list.'; otherwise, at the first
    policy that is ill-formed, with 'Each policy in policies must be a
    non-empty list.' when that policy is not a non-empty list and with
    'Each specific augmentation must be a dict with key "type".' when it
    is one, whatever the policies after it are.  The heap is as it was. *)
Theorem construction_reports_the_first_failure h policies :
  ((∀ ps, as_list h policies = Some ps → ps = []) →
     __init__ Compose policies h
     = Some (h, Raise (AssertionError policies_must_be_a_non_empty_list)))
  ∧ (∀ ps i policy,
       as_list h policies = Some ps →
       ps !! i = Some policy →
       (∀ j q, j < i → ps !! j = Some q → valid_policy h q) →
       ¬ valid_policy h policy →
       __init__ Compose policies h
       = Some (h, Raise (AssertionError
                    match as_list h policy with
                    | Some (_ :: _) => each_augmentation_must_be_a_dict_with_key_type
                    | _ => each_policy_must_be_a_non_empty_list
                    end))).
Proof.
  split.
  - intros Hnone. unfold __init__, check_policies.
    destruct (as_list h policies) as [ps|]; [|done].
    by rewrite (Hnone ps eq_refl).
  - intros ps i policy Hps Hi Hbefore Hinv.
    unfold __init__, check_policies. rewrite Hps.
    rewrite decide_True by (apply lookup_lt_Some in Hi; lia).
    erewrite (for_each_first_failure _ ps i policy); [done|done| |].
    + intros j q Hj Hq. apply check_policy_Return. by eapply Hbefore.
    + by apply check_policy_invalid.
Qed.


End Construction.

Lemma construction_reports_the_first_failure_witness :
  __init__ keep_policy (VRef 1%positive) heap_empty_policies
  = Some (heap_empty_policies, Raise (AssertionError policies_must_be_a_non_empty_list))
  ∧ __init__ keep_policy (VRef 1%positive) heap_empty_policy
    = Some (heap_empty_policy, Raise (AssertionError each_policy_must_be_a_non_empty_list)).
Proof.
  split.
  - apply (proj1 (construction_reports_the_first_failure val keep_policy
                    heap_empty_policies (VRef 1%positive))).
    intros ps Hps. vm_compute in Hps. by injection Hps as <-.
  - etrans.
    + apply (proj2 (construction_reports_the_first_failure val keep_policy
                      heap_empty_policy (VRef 1%positive))
               [VRef 2%positive] 0 (VRef 2%positive)).
      * reflexivity.
      * reflexivity.
      * intros j q Hj. lia.
      * intros H%check_policy_Return. vm_compute in H. discriminate.
    + reflexivity.
Defined.


End AutoAugmentFailures.
